(** * Algobot: the backtest simulation loop, its performance evaluation and
      the risk manager, embedded from

      - [backtest/backtester.py]  ([Backtester])
      - [risk/risk_manager.py]    ([RiskManager])
      - [config.py]               (the ATR multipliers)

    Conventions of the embedding.

    - Prices, balances and lot sizes are Python floats in the source; they
      are exact rationals ([Q]) here, compared up to [==].  Rounding and NaN
      are outside the model.
    - A dict lookup that can fail ([row['signal']], [t['pnl']]) and a
      division whose divisor can be zero are fallible: the functions return
      [result], whose [Raise] carries the Python exception.
    - The loop of [_simulate_trading] threads its local variables
      ([balance], [equity], [position], [trailing_stop], [max_equity],
      [drawdown_triggered]) and the two lists it appends to
      ([self.trades], [self.equity_curve]) through a state record.
    - In [_simulate_trading] the statements that build [position] and append
      the entry record (lines 142-163 and 171-192) are indented unevenly; they
      are read as the tail of the branch whose [entry_price], [sl], [tp] and
      [lot_size] they use, the only reading under which the following [elif]
      belongs to an [if]. *)

From Stdlib Require Import QArith Qabs ZArith List String Bool Lia Lqa.
Import ListNotations.

Local Open Scope string_scope.
Local Open Scope list_scope.
Local Open Scope Q_scope.

(** ** Python exceptions and the error monad *)

Inductive exn : Type :=
| KeyError (key : string)
| IndexError
| ZeroDivisionError.

Inductive result (A : Type) : Type :=
| Ok (a : A)
| Raise (e : exn).

Arguments Ok {A} a.
Arguments Raise {A} e.

Definition bind {A B : Type} (m : result A) (k : A -> result B) : result B :=
  match m with
  | Ok a => k a
  | Raise e => Raise e
  end.

Notation "x <- m ;; k" := (bind m (fun x => k))
  (at level 61, m at next level, right associativity).

(** [d[key]] on a dict that may lack [key]. *)
Definition getitem {A : Type} (key : string) (field : option A) : result A :=
  match field with
  | Some a => Ok a
  | None => Raise (KeyError key)
  end.

(** [x / y].  A zero divisor has no quotient: Python raises
    [ZeroDivisionError], numpy answers inf or nan, which the rationals do not
    have; the model raises in both cases. *)
Definition py_div (x y : Q) : result Q :=
  if Qeq_bool y 0 then Raise ZeroDivisionError else Ok (x / y).

(** ** Comparisons on rationals, as booleans *)

Definition Qleb (x y : Q) : bool := Qle_bool x y.
Definition Qltb (x y : Q) : bool := negb (Qle_bool y x).
Definition Qgeb (x y : Q) : bool := Qleb y x.
Definition Qgtb (x y : Q) : bool := Qltb y x.

(** ** [config.py] *)

Module Config.
Definition ATR_MULTIPLIER : Q := 2.
Definition ATR_STOP_LOSS_MULTIPLIER : Q := 2.
Definition ATR_TAKE_PROFIT_MULTIPLIER : Q := 4.
Definition DEFAULT_LOT_SIZE : Q := 2 # 100.
Definition ATR_PERIOD : nat := 14.
Definition SLTP_MODE : string := "atr".
Definition FIXED_STOP_LOSS_PIPS : Q := 20.
Definition FIXED_TAKE_PROFIT_PIPS : Q := 40.
End Config.
Import Config.

(** ** [Backtester]: data model *)

Inductive direction : Type := Long | Short.

(** The strings [close_reason] takes: ['trailing_stop'], ['stop_loss'],
    ['take_profit'] and ['opposite_signal']. *)
Inductive exit_reason : Type :=
| trailing_stop_hit
| stop_loss_hit
| take_profit_hit
| opposite_signal.

(** The dict bound to [position] while a position is open. *)
Record position : Type := mkPosition {
  entry_time : Z;
  entry_price : Q;
  pos_direction : direction;
  lot_size : Q;
  symbol : string;
  stop_loss : Q;
  take_profit : Q
}.

(** The dict appended to [self.trades] when a position is closed. *)
Record closed_trade : Type := mkClosed {
  ct_entry_time : Z;
  ct_exit_time : Z;
  ct_symbol : string;
  ct_direction : direction;
  ct_entry_price : Q;
  ct_exit_price : Q;
  ct_lot_size : Q;
  ct_stop_loss : Q;
  ct_take_profit : Q;
  ct_trailing_stop : option Q;
  ct_pnl : Q;
  ct_balance : Q;
  ct_exit_reason : exit_reason
}.

(** The dict appended to [self.trades] when a position is opened
    ("Log entry"): it has no ['pnl'] and no ['balance'] key. *)
Record entry_log : Type := mkEntry {
  el_entry_time : Z;
  el_symbol : string;
  el_direction : direction;
  el_entry_price : Q;
  el_lot_size : Q;
  el_stop_loss : Q;
  el_take_profit : Q;
  el_trailing_stop : option Q;
  el_entry_reason : string;
  el_status : string
}.

Inductive trade : Type :=
| Closed (c : closed_trade)
| Entry (e : entry_log).

(** One element of [self.equity_curve]. *)
Record equity_point : Type := mkPoint {
  ep_time : Z;
  ep_balance : Q;
  ep_equity : Q;
  ep_position : bool
}.

(** One row of the [signals] frame: its index label, its ['close'] and the
    two columns the loop reads, ['signal'] when it looks for an opposite
    signal and ['Signal'] when it looks for an entry.  A column the frame
    does not have is [None]. *)
Record row : Type := mkRow {
  idx : Z;
  close : Q;
  signal : option Z;
  Signal : option Z
}.

(** The constructor arguments of [Backtester] the loop reads. *)
Record backtester : Type := mkBacktester {
  bt_lot_size : Q;
  commission : Q;
  spread : Q;
  risk_per_trade : Q;
  pip_value : Q;
  max_drawdown : Q
}.

Definition default_backtester : backtester :=
  {| bt_lot_size := 2 # 100;
     commission := 1 # 10000;
     spread := 2 # 10000;
     risk_per_trade := 1 # 100;
     pip_value := 1;
     max_drawdown := 2 # 10 |}.

(** The loop's variables. *)
Record sim_state : Type := mkState {
  balance : Q;
  equity : Q;
  cur_position : option position;
  trailing_stop : option Q;
  max_equity : Q;
  drawdown_triggered : bool;
  trades : list trade;
  equity_curve : list equity_point
}.

Definition starting_balance : Q := 10000.

(** The variables before the first bar; [self.trades] and
    [self.equity_curve] are what the object holds when the run starts. *)
Definition initial_state (ts : list trade) (ec : list equity_point) : sim_state :=
  {| balance := starting_balance;
     equity := starting_balance;
     cur_position := None;
     trailing_stop := None;
     max_equity := starting_balance;
     drawdown_triggered := false;
     trades := ts;
     equity_curve := ec |}.

(** ** [Backtester._calculate_pnl] *)

Definition _calculate_pnl (self : backtester) (p : position) (current_price : Q) : Q :=
  let pnl :=
    match pos_direction p with
    | Long => (current_price - entry_price p) * lot_size p * 100000
    | Short => (entry_price p - current_price) * lot_size p * 100000
    end in
  pnl - commission self * lot_size p * 100000.

(** ** [Backtester._simulate_trading], one bar *)

(** [atr_series[i]], or [None] when the series has no value at label [i]
    (the source tests [atr is not None]).  [None] is Python's [None] only: a
    NaN in the series, such as [calculate_atr] gives on its first
    [ATR_PERIOD - 1] rows, is a float for the source and takes the branches
    of a value; the rationals have no NaN, so what is proved of a bar with
    [Some a] is proved of a numeric ATR, and nothing is proved of a bar
    whose ATR is NaN. *)
Definition atr_at (atr_series : Z -> option Q) (i : Z) : option Q := atr_series i.

(** Lines 73-75: the running peak and the drawdown from it. *)
Definition update_max_equity (st : sim_state) : Q :=
  if Qgtb (equity st) (max_equity st) then equity st else max_equity st.

Definition current_drawdown (max_eq eq : Q) : Q :=
  if Qgtb max_eq 0 then (max_eq - eq) / max_eq else 0.

(** Lines 76-78: the flag is set, and nothing in the loop clears it. *)
Definition update_drawdown_triggered (self : backtester) (dd : Q) (triggered : bool) : bool :=
  if Qgtb dd (max_drawdown self) && negb triggered then true else triggered.

(** Lines 82-89: the candidate trailing stop and its acceptance. *)
Definition new_trailing (d : direction) (current_price : Q) (atr : option Q) : option Q :=
  match atr with
  | Some a =>
      Some match d with
           | Long => current_price - ATR_MULTIPLIER * a
           | Short => current_price + ATR_MULTIPLIER * a
           end
  | None => None
  end.

Definition improves (d : direction) (candidate current : Q) : bool :=
  match d with
  | Long => Qgtb candidate current
  | Short => Qltb candidate current
  end.

Definition update_trailing (d : direction) (ts : option Q) (current_price : Q)
    (atr : option Q) : option Q :=
  match new_trailing d current_price atr with
  | Some n =>
      match ts with
      | None => Some n
      | Some t => if improves d n t then Some n else Some t
      end
  | None => ts
  end.

(** Lines 91-109: the chain of [if]/[elif] that picks [close_reason].  The
    last test reads [row['signal']], and only when the first three fail. *)
Definition trailing_hit (d : direction) (ts : option Q) (current_price : Q) : bool :=
  match ts with
  | Some t =>
      match d with
      | Long => Qleb current_price t
      | Short => Qgeb current_price t
      end
  | None => false
  end.

Definition stop_hit (p : position) (current_price : Q) : bool :=
  match pos_direction p with
  | Long => Qleb current_price (stop_loss p)
  | Short => Qgeb current_price (stop_loss p)
  end.

Definition target_hit (p : position) (current_price : Q) : bool :=
  match pos_direction p with
  | Long => Qgeb current_price (take_profit p)
  | Short => Qleb current_price (take_profit p)
  end.

Definition opposite (d : direction) : Z :=
  match d with
  | Long => (-1)%Z
  | Short => 1%Z
  end.

Definition close_reason (p : position) (ts : option Q) (current_price : Q) (r : row)
    : result (option exit_reason) :=
  if trailing_hit (pos_direction p) ts current_price then Ok (Some trailing_stop_hit)
  else if stop_hit p current_price then Ok (Some stop_loss_hit)
  else if target_hit p current_price then Ok (Some take_profit_hit)
  else
    s <- getitem "signal" (signal r) ;;
    if (s =? opposite (pos_direction p))%Z then Ok (Some opposite_signal) else Ok None.

(** Lines 111-131: the close. *)
Definition close_record (p : position) (i : Z) (current_price : Q) (ts : option Q)
    (pnl bal : Q) (why : exit_reason) : closed_trade :=
  {| ct_entry_time := entry_time p;
     ct_exit_time := i;
     ct_symbol := symbol p;
     ct_direction := pos_direction p;
     ct_entry_price := entry_price p;
     ct_exit_price := current_price;
     ct_lot_size := lot_size p;
     ct_stop_loss := stop_loss p;
     ct_take_profit := take_profit p;
     ct_trailing_stop := ts;
     ct_pnl := pnl;
     ct_balance := bal;
     ct_exit_reason := why |}.

(** What lines 80-131 leave behind: balance, equity, position, trailing stop
    and the trade list. *)
Record managed : Type := mkManaged {
  m_balance : Q;
  m_equity : Q;
  m_position : option position;
  m_trailing_stop : option Q;
  m_trades : list trade
}.

(** The bar leaves balance, equity and trades as they are. *)
Definition carry (st : sim_state) (pos : option position) (ts : option Q) : managed :=
  {| m_balance := balance st; m_equity := equity st; m_position := pos;
     m_trailing_stop := ts; m_trades := trades st |}.

(** Lines 111-131: the PnL is added to the balance, the close record is
    appended, position and trailing stop are cleared. *)
Definition close_out (self : backtester) (st : sim_state) (p : position) (r : row)
    (ts : option Q) (why : exit_reason) : managed :=
  let current_price := close r in
  let pnl := _calculate_pnl self p current_price in
  let bal := balance st + pnl in
  {| m_balance := bal; m_equity := bal; m_position := None; m_trailing_stop := None;
     m_trades := trades st ++ [Closed (close_record p (idx r) current_price ts pnl bal why)] |}.

Definition manage_position (self : backtester) (st : sim_state) (r : row)
    (atr : option Q) : result managed :=
  let current_price := close r in
  match cur_position st with
  | None => Ok (carry st None (trailing_stop st))
  | Some p =>
      let ts := update_trailing (pos_direction p) (trailing_stop st) current_price atr in
      why <- close_reason p ts current_price r ;;
      match why with
      | Some w => Ok (close_out self st p r ts w)
      | None => Ok (carry st (Some p) ts)
      end
  end.

(** Lines 135-141 and 165-170: entry price, stop, target, lot size and the
    first trailing stop of a new position. *)
Definition entry_price_of (self : backtester) (d : direction) (current_price : Q) : Q :=
  match d with
  | Long => current_price + spread self
  | Short => current_price - spread self
  end.

Definition entry_sl (d : direction) (entry : Q) (atr : option Q) : Q :=
  match d, atr with
  | Long, Some a => entry - ATR_STOP_LOSS_MULTIPLIER * a
  | Long, None => entry * (97 # 100)
  | Short, Some a => entry + ATR_STOP_LOSS_MULTIPLIER * a
  | Short, None => entry * (103 # 100)
  end.

Definition entry_tp (d : direction) (entry : Q) (atr : option Q) : Q :=
  match d, atr with
  | Long, Some a => entry + ATR_TAKE_PROFIT_MULTIPLIER * a
  | Long, None => entry * (103 # 100)
  | Short, Some a => entry - ATR_TAKE_PROFIT_MULTIPLIER * a
  | Short, None => entry * (97 # 100)
  end.

Definition entry_trailing (d : direction) (entry : Q) (atr : option Q) : option Q :=
  match atr with
  | Some a =>
      Some match d with
           | Long => entry - ATR_MULTIPLIER * a
           | Short => entry + ATR_MULTIPLIER * a
           end
  | None => None
  end.

(** Lines 140 and 169: dynamic position sizing. *)
Definition position_size (self : backtester) (bal stop_dist : Q) : result Q :=
  if Qgtb stop_dist 0
  then py_div (risk_per_trade self * bal) (stop_dist * pip_value self)
  else Ok (bt_lot_size self).

Definition entry_reason_of (d : direction) : string :=
  match d with
  | Long => "Buy signal: MA crossover + filters"
  | Short => "Sell signal: MA crossover + filters"
  end.

Definition new_position (self : backtester) (d : direction) (r : row)
    (atr : option Q) (lots : Q) : position :=
  let entry := entry_price_of self d (close r) in
  {| entry_time := idx r; entry_price := entry; pos_direction := d; lot_size := lots;
     symbol := "symbol"; stop_loss := entry_sl d entry atr;
     take_profit := entry_tp d entry atr |}.

Definition new_entry_log (self : backtester) (d : direction) (r : row)
    (atr : option Q) (lots : Q) : entry_log :=
  let entry := entry_price_of self d (close r) in
  {| el_entry_time := idx r; el_symbol := "symbol"; el_direction := d;
     el_entry_price := entry; el_lot_size := lots; el_stop_loss := entry_sl d entry atr;
     el_take_profit := entry_tp d entry atr;
     el_trailing_stop := entry_trailing d entry atr;
     el_entry_reason := entry_reason_of d; el_status := "open" |}.

Definition stop_distance (self : backtester) (d : direction) (r : row)
    (atr : option Q) : Q :=
  let entry := entry_price_of self d (close r) in
  Qabs (entry - entry_sl d entry atr).

Definition open_position (self : backtester) (d : direction) (m : managed) (r : row)
    (atr : option Q) : result managed :=
  let entry := entry_price_of self d (close r) in
  lots <- position_size self (m_balance m) (stop_distance self d r atr) ;;
  Ok {| m_balance := m_balance m;
        m_equity := m_equity m;
        m_position := Some (new_position self d r atr lots);
        m_trailing_stop := entry_trailing d entry atr;
        m_trades := m_trades m ++ [Entry (new_entry_log self d r atr lots)] |}.

(** Lines 133-192: a new position is looked for only when the flag is
    clear; [row['Signal']] is read only when no position is open. *)
Definition handle_new_signals (self : backtester) (triggered : bool) (m : managed)
    (r : row) (atr : option Q) : result managed :=
  if negb triggered then
    match m_position m with
    | None =>
        s <- getitem "Signal" (Signal r) ;;
        if (s =? 1)%Z then open_position self Long m r atr
        else if (s =? -1)%Z then open_position self Short m r atr
        else Ok m
    | Some _ => Ok m
    end
  else Ok m.

(** Lines 194-202: mark to market and the equity point of the bar. *)
Definition mark_to_market (self : backtester) (m : managed) (current_price : Q) : Q :=
  match m_position m with
  | Some p => m_balance m + _calculate_pnl self p current_price
  | None => m_equity m
  end.

Definition sim_step (self : backtester) (atr_series : Z -> option Q)
    (st : sim_state) (r : row) : result sim_state :=
  let current_price := close r in
  let atr := atr_at atr_series (idx r) in
  let max_eq := update_max_equity st in
  let dd := current_drawdown max_eq (equity st) in
  let triggered := update_drawdown_triggered self dd (drawdown_triggered st) in
  m <- manage_position self st r atr ;;
  m' <- handle_new_signals self triggered m r atr ;;
  let eq := mark_to_market self m' current_price in
  Ok {| balance := m_balance m';
        equity := eq;
        cur_position := m_position m';
        trailing_stop := m_trailing_stop m';
        max_equity := max_eq;
        drawdown_triggered := triggered;
        trades := m_trades m';
        equity_curve := equity_curve st ++
          [{| ep_time := idx r; ep_balance := m_balance m'; ep_equity := eq;
              ep_position := match m_position m' with Some _ => true | None => false end |}] |}.

(** The [for] loop over [signals.iterrows()]. *)
Fixpoint simulate_from (self : backtester) (atr_series : Z -> option Q)
    (st : sim_state) (signals : list row) : result sim_state :=
  match signals with
  | [] => Ok st
  | r :: rest =>
      st' <- sim_step self atr_series st r ;;
      simulate_from self atr_series st' rest
  end.

Definition _simulate_trading (self : backtester) (atr_series : Z -> option Q)
    (self_trades : list trade) (self_equity_curve : list equity_point)
    (signals : list row) : result sim_state :=
  simulate_from self atr_series (initial_state self_trades self_equity_curve) signals.

(** ** [Backtester._calculate_performance] *)

(** [t['pnl']] and [t['balance']]: only the close record has these keys. *)
Definition pnl_of (t : trade) : option Q :=
  match t with
  | Closed c => Some (ct_pnl c)
  | Entry _ => None
  end.

Definition balance_of (t : trade) : option Q :=
  match t with
  | Closed c => Some (ct_balance c)
  | Entry _ => None
  end.

(** [[t for t in ts if test(t['pnl'])]]: the comprehension stops at the first
    record without the key. *)
Fixpoint select_by_pnl (test : Q -> bool) (ts : list trade) : result (list trade) :=
  match ts with
  | [] => Ok []
  | t :: rest =>
      pnl <- getitem "pnl" (pnl_of t) ;;
      kept <- select_by_pnl test rest ;;
      Ok (if test pnl then t :: kept else kept)
  end.

(** [[t['pnl'] for t in ts]] *)
Fixpoint pnls (ts : list trade) : result (list Q) :=
  match ts with
  | [] => Ok []
  | t :: rest =>
      pnl <- getitem "pnl" (pnl_of t) ;;
      others <- pnls rest ;;
      Ok (pnl :: others)
  end.

Definition Qsum (l : list Q) : Q := fold_right Qplus 0 l.

Definition len {A : Type} (l : list A) : Q := inject_Z (Z.of_nat (List.length l)).

(** [np.mean] of a list the caller has checked to be non-empty. *)
Definition np_mean (l : list Q) : Q := Qsum l / len l.

Definition mean_pnl_or_zero (ts : list trade) : result Q :=
  match ts with
  | [] => Ok 0
  | _ :: _ => ps <- pnls ts ;; Ok (np_mean ps)
  end.

(** Lines 248-256: the largest fractional decline from the running peak. *)
Fixpoint drawdown_loop (peak max_dd : Q) (equity_values : list Q) : result Q :=
  match equity_values with
  | [] => Ok max_dd
  | e :: rest =>
      let peak' := if Qgtb e peak then e else peak in
      dd <- py_div (peak' - e) peak' ;;
      drawdown_loop peak' (if Qgtb dd max_dd then dd else max_dd) rest
  end.

(** The values of the returned dict. *)
Inductive perf_value : Type :=
| PNum (q : Q)
| PTrades (ts : list trade)
| PCurve (ec : list equity_point).

(** The returned dict, in insertion order. *)
Definition performance : Type := list (string * perf_value).

Fixpoint perf_get (key : string) (d : performance) : option perf_value :=
  match d with
  | [] => None
  | (k, v) :: rest => if String.eqb k key then Some v else perf_get key rest
  end.

Section Performance.

(** Lines 259-260, [returns.mean() / returns.std() * np.sqrt(252) if
    returns.std() > 0 else 0] over the percentage changes of the equity
    values: pandas and numpy, with an irrational factor; kept abstract. *)
Variable sharpe_of : list Q -> Q.

Definition _calculate_performance (self_trades : list trade)
    (self_equity_curve : list equity_point) : result performance :=
  match self_trades with
  | [] =>
      Ok [("total_return", PNum 0); ("num_trades", PNum 0); ("win_rate", PNum 0);
          ("avg_win", PNum 0); ("avg_loss", PNum 0); ("max_drawdown", PNum 0);
          ("sharpe_ratio", PNum 0)]
  | first :: _ =>
      let total_trades := len self_trades in
      winning_trades <- select_by_pnl (fun pnl => Qgtb pnl 0) self_trades ;;
      losing_trades <- select_by_pnl (fun pnl => Qleb pnl 0) self_trades ;;
      let win_rate :=
        if Qgtb total_trades 0 then len winning_trades / total_trades else 0 in
      avg_win <- mean_pnl_or_zero winning_trades ;;
      avg_loss <- mean_pnl_or_zero losing_trades ;;
      let initial_balance := 10000 in
      final_balance <- getitem "balance" (balance_of (last self_trades first)) ;;
      let total_return := (final_balance - initial_balance) / initial_balance in
      let equity_values := map ep_equity self_equity_curve in
      peak <- match equity_values with
              | [] => Raise IndexError
              | e :: _ => Ok e
              end ;;
      max_dd <- drawdown_loop peak 0 equity_values ;;
      let sharpe_ratio := sharpe_of equity_values in
      Ok [("total_return", PNum total_return); ("num_trades", PNum total_trades);
          ("win_rate", PNum win_rate); ("avg_win", PNum avg_win);
          ("avg_loss", PNum avg_loss); ("max_drawdown", PNum max_dd);
          ("sharpe_ratio", PNum sharpe_ratio); ("final_balance", PNum final_balance);
          ("trades", PTrades self_trades); ("equity_curve", PCurve self_equity_curve)]
  end.

End Performance.

(** The fields of the Summary. *)
Definition summary_fields : list string :=
  ["total_return"; "num_trades"; "win_rate"; "avg_win"; "avg_loss"; "max_drawdown";
   "sharpe_ratio"; "final_balance"].

Definition has_key (d : performance) (key : string) : bool :=
  match perf_get key d with
  | Some _ => true
  | None => false
  end.

Definition fully_populated (d : performance) : bool :=
  forallb (has_key d) summary_fields.

(** ** [utils/indicators.py]: [calculate_atr] *)

Module Indicators.

(** One row of a price frame, with the columns [calculate_atr] reads. *)
Record candle : Type := mkCandle {
  high : Q;
  low : Q;
  close : Q
}.

(** A float that may be NaN: [None] is NaN. *)
Definition float_or_nan : Type := option Q.

Definition max2 (a b : Q) : Q := if Qleb a b then b else a.

(** One row of [pd.concat([tr1, tr2, tr3], axis=1).max(axis=1)].  On the
    first row [close.shift()] is NaN, so [tr2] and [tr3] are NaN and the
    row maximum, which skips NaN, is [tr1]. *)
Definition true_range (previous_close : option Q) (c : candle) : Q :=
  let tr1 := high c - low c in
  match previous_close with
  | None => tr1
  | Some pc => max2 (max2 tr1 (Qabs (high c - pc))) (Qabs (low c - pc))
  end.

Fixpoint true_ranges (previous_close : option Q) (df : list candle) : list Q :=
  match df with
  | [] => []
  | c :: rest => true_range previous_close c :: true_ranges (Some (close c)) rest
  end.

(** [xs.rolling(window=period).mean()] at position [i]: NaN until the
    window is full, then the mean of the last [period] values.  The callers
    pass [ATR_PERIOD]; an empty window has no mean. *)
Definition rolling_mean (period : nat) (xs : list Q) (i : nat) : float_or_nan :=
  if (period =? 0)%nat then None
  else if (S i <? period)%nat then None
  else Some (Qsum (firstn period (skipn (S i - period) xs)) / inject_Z (Z.of_nat period)).

Definition calculate_atr (df : list candle) (period : nat) : list float_or_nan :=
  let true_range := true_ranges None df in
  map (rolling_mean period true_range) (seq 0 (List.length df)).

(** [series.iloc[-1]]: the last element, [IndexError] on an empty series. *)
Definition iloc_last {A : Type} (series : list A) : result A :=
  match rev series with
  | x :: _ => Ok x
  | [] => Raise IndexError
  end.

End Indicators.

(** ** [RiskManager] *)

Module RiskManager.

(** One element of [self.open_positions], as [add_position] builds it.
    The direction is the string the caller passes (['buy'] or anything
    else); ['unrealized_pnl'] is read with [pos.get('unrealized_pnl', 0)]. *)
Record open_position : Type := mkOpen {
  symbol : string;
  direction : string;
  entry_price : Q;
  lot_size : Q;
  stop_loss : Q;
  take_profit : Q;
  trailing_stop : option Q;
  unrealized_pnl : option Q;
  pnl : Q
}.

(** One element of [self.trade_history]. *)
Record trade_result : Type := mkResult {
  tr_symbol : string;
  tr_pnl : Q;
  tr_win_loss : string;
  tr_timestamp : Z
}.

(** The attributes of a [RiskManager]. *)
Record t : Type := mkRiskManager {
  account_balance : Q;
  max_risk_per_trade : Q;
  max_portfolio_risk : Q;
  stop_loss_pct : Q;
  take_profit_pct : Q;
  max_positions : Z;
  self_lot_size : Q;
  max_drawdown_per_symbol : Q;
  max_drawdown_per_session : Q;
  circuit_breaker_losses : Z;
  open_positions : list open_position;
  trade_history : list trade_result;
  session_start_balance : Q;
  consecutive_losses : Z;
  circuit_breaker_triggered : bool
}.

(** [__init__] *)
Definition init (account_balance max_risk_per_trade max_portfolio_risk stop_loss_pct
    take_profit_pct : Q) (max_positions : Z) (lot_size max_drawdown_per_symbol
    max_drawdown_per_session : Q) (circuit_breaker_losses : Z) : t :=
  {| account_balance := account_balance;
     max_risk_per_trade := max_risk_per_trade;
     max_portfolio_risk := max_portfolio_risk;
     stop_loss_pct := stop_loss_pct;
     take_profit_pct := take_profit_pct;
     max_positions := max_positions;
     self_lot_size := lot_size;
     max_drawdown_per_symbol := max_drawdown_per_symbol;
     max_drawdown_per_session := max_drawdown_per_session;
     circuit_breaker_losses := circuit_breaker_losses;
     open_positions := [];
     trade_history := [];
     session_start_balance := account_balance;
     consecutive_losses := 0;
     circuit_breaker_triggered := false |}.

(** [RiskManager()] with the defaults of the signature. *)
Definition default : t :=
  init 10000 (2 # 100) (6 # 100) (30 # 100) (60 # 100) 10 DEFAULT_LOT_SIZE
       (5 # 100) (10 # 100) 5.

Definition set_session (self : t) (start : Q) (losses : Z) (triggered : bool) : t :=
  {| account_balance := account_balance self;
     max_risk_per_trade := max_risk_per_trade self;
     max_portfolio_risk := max_portfolio_risk self;
     stop_loss_pct := stop_loss_pct self;
     take_profit_pct := take_profit_pct self;
     max_positions := max_positions self;
     self_lot_size := self_lot_size self;
     max_drawdown_per_symbol := max_drawdown_per_symbol self;
     max_drawdown_per_session := max_drawdown_per_session self;
     circuit_breaker_losses := circuit_breaker_losses self;
     open_positions := open_positions self;
     trade_history := trade_history self;
     session_start_balance := start;
     consecutive_losses := losses;
     circuit_breaker_triggered := triggered |}.

Definition set_trade_history (self : t) (h : list trade_result) : t :=
  {| account_balance := account_balance self;
     max_risk_per_trade := max_risk_per_trade self;
     max_portfolio_risk := max_portfolio_risk self;
     stop_loss_pct := stop_loss_pct self;
     take_profit_pct := take_profit_pct self;
     max_positions := max_positions self;
     self_lot_size := self_lot_size self;
     max_drawdown_per_symbol := max_drawdown_per_symbol self;
     max_drawdown_per_session := max_drawdown_per_session self;
     circuit_breaker_losses := circuit_breaker_losses self;
     open_positions := open_positions self;
     trade_history := h;
     session_start_balance := session_start_balance self;
     consecutive_losses := consecutive_losses self;
     circuit_breaker_triggered := circuit_breaker_triggered self |}.

(** [reset_session] *)
Definition reset_session (self : t) : t :=
  set_session self (account_balance self) 0 false.

(** [check_circuit_breaker]: the answer depends on the loss count alone;
    the flag is written and never read. *)
Definition check_circuit_breaker (self : t) : bool * t :=
  if (consecutive_losses self >=? circuit_breaker_losses self)%Z
  then (false, set_session self (session_start_balance self) (consecutive_losses self) true)
  else (true, self).

(** [check_drawdown_limits] *)
Definition check_drawdown_limits (self : t) (sym : string) : result bool :=
  session_drawdown <-
    py_div (session_start_balance self - account_balance self) (session_start_balance self) ;;
  if Qgtb session_drawdown (max_drawdown_per_session self) then Ok false
  else
    let symbol_positions :=
      filter (fun pos => String.eqb (symbol pos) sym) (open_positions self) in
    match symbol_positions with
    | [] => Ok true
    | _ :: _ =>
        let symbol_pnl :=
          Qsum (map (fun pos => match unrealized_pnl pos with
                                | Some u => u
                                | None => 0
                                end) symbol_positions) in
        symbol_drawdown <- py_div (Qabs symbol_pnl) (account_balance self) ;;
        if Qgtb symbol_drawdown (max_drawdown_per_symbol self) then Ok false
        else Ok true
    end.

(** [record_trade_result]; [now] is the [datetime.now()] of the call. *)
Definition record_trade_result (self : t) (sym : string) (pnl : Q)
    (win_loss : string) (now : Z) : t :=
  let self' :=
    set_trade_history self
      (trade_history self ++
         [{| tr_symbol := sym; tr_pnl := pnl; tr_win_loss := win_loss;
             tr_timestamp := now |}]) in
  if String.eqb win_loss "loss"
  then set_session self' (session_start_balance self') (consecutive_losses self' + 1)%Z
         (circuit_breaker_triggered self')
  else set_session self' (session_start_balance self') 0%Z
         (circuit_breaker_triggered self').

(** [calculate_position_size]: the [try] body cannot raise, so the
    [except] branch that returns [self.lot_size] is never taken. *)
Definition calculate_position_size {Info : Type} (self : t)
    (entry_price stop_loss_price : Q) (symbol_info : option Info)
    (atr risk_percent : option Q) : Q :=
  let lot_size := 1 # 100 in
  lot_size.

(** [calculate_portfolio_risk] *)
Fixpoint total_risk (self : t) (acc : Q) (positions : list open_position) : result Q :=
  match positions with
  | [] => Ok acc
  | position :: rest =>
      let u := match unrealized_pnl position with
               | Some u => u
               | None => 0
               end in
      risk_pct <- py_div (Qabs u) (account_balance self) ;;
      total_risk self (acc + risk_pct) rest
  end.

Definition calculate_portfolio_risk (self : t) : result Q :=
  match open_positions self with
  | [] => Ok 0
  | _ :: _ => total_risk self 0 (open_positions self)
  end.

(** [can_open_position]: the answer and the manager after the call. *)
Definition can_open_position (self : t) (sym : string) : result (bool * t) :=
  let (ok, self) := check_circuit_breaker self in
  if negb ok then Ok (false, self)
  else
    within <- check_drawdown_limits self sym ;;
    if negb within then Ok (false, self)
    else if (Z.of_nat (List.length (open_positions self)) >=? max_positions self)%Z
    then Ok (false, self)
    else
      current_portfolio_risk <- calculate_portfolio_risk self ;;
      if Qgeb current_portfolio_risk (max_portfolio_risk self) then Ok (false, self)
      else Ok (true, self).

(** A trade result as [record_trade_result] receives it. *)
Record outcome : Type := mkOutcome {
  o_symbol : string;
  o_pnl : Q;
  o_win_loss : string;
  o_now : Z
}.

Definition record_all (self : t) (outcomes : list outcome) : t :=
  fold_left
    (fun rm o => record_trade_result rm (o_symbol o) (o_pnl o) (o_win_loss o) (o_now o))
    outcomes self.

Definition is_loss (o : outcome) : bool := String.eqb (o_win_loss o) "loss".

Definition set_open_positions (self : t) (positions : list open_position) : t :=
  {| account_balance := account_balance self;
     max_risk_per_trade := max_risk_per_trade self;
     max_portfolio_risk := max_portfolio_risk self;
     stop_loss_pct := stop_loss_pct self;
     take_profit_pct := take_profit_pct self;
     max_positions := max_positions self;
     self_lot_size := self_lot_size self;
     max_drawdown_per_symbol := max_drawdown_per_symbol self;
     max_drawdown_per_session := max_drawdown_per_session self;
     circuit_breaker_losses := circuit_breaker_losses self;
     open_positions := positions;
     trade_history := trade_history self;
     session_start_balance := session_start_balance self;
     consecutive_losses := consecutive_losses self;
     circuit_breaker_triggered := circuit_breaker_triggered self |}.

(** [update_account_balance] *)
Definition update_account_balance (self : t) (new_balance : Q) : t :=
  {| account_balance := new_balance;
     max_risk_per_trade := max_risk_per_trade self;
     max_portfolio_risk := max_portfolio_risk self;
     stop_loss_pct := stop_loss_pct self;
     take_profit_pct := take_profit_pct self;
     max_positions := max_positions self;
     self_lot_size := self_lot_size self;
     max_drawdown_per_symbol := max_drawdown_per_symbol self;
     max_drawdown_per_session := max_drawdown_per_session self;
     circuit_breaker_losses := circuit_breaker_losses self;
     open_positions := open_positions self;
     trade_history := trade_history self;
     session_start_balance := session_start_balance self;
     consecutive_losses := consecutive_losses self;
     circuit_breaker_triggered := circuit_breaker_triggered self |}.

(** [remove_position]: [if direction:] holds for a non-empty string. *)
Definition remove_position (self : t) (sym : string) (dir : option string) : t :=
  let given :=
    match dir with
    | Some d => negb (String.eqb d "")
    | None => false
    end in
  set_open_positions self
    (if given
     then filter (fun pos =>
                    negb (String.eqb (symbol pos) sym &&
                          match dir with
                          | Some d => String.eqb (direction pos) d
                          | None => false
                          end))
            (open_positions self)
     else filter (fun pos => negb (String.eqb (symbol pos) sym)) (open_positions self)).

(** [update_position_pnl]: the loop stops at the first position of the
    symbol ([break]); no commission enters this PnL. *)
Definition position_pnl (pos : open_position) (current_price : Q) : Q :=
  if String.eqb (direction pos) "buy"
  then (current_price - entry_price pos) * lot_size pos * 100000
  else (entry_price pos - current_price) * lot_size pos * 100000.

Definition with_pnl (pos : open_position) (v : Q) : open_position :=
  {| symbol := symbol pos; direction := direction pos; entry_price := entry_price pos;
     lot_size := lot_size pos; stop_loss := stop_loss pos; take_profit := take_profit pos;
     trailing_stop := trailing_stop pos; unrealized_pnl := Some v; pnl := v |}.

Fixpoint update_first_pnl (sym : string) (current_price : Q)
    (positions : list open_position) : list open_position :=
  match positions with
  | [] => []
  | pos :: rest =>
      if String.eqb (symbol pos) sym
      then with_pnl pos (position_pnl pos current_price) :: rest
      else pos :: update_first_pnl sym current_price rest
  end.

Definition update_position_pnl (self : t) (sym : string) (current_price : Q) : t :=
  set_open_positions self (update_first_pnl sym current_price (open_positions self)).

(** [check_stop_loss_take_profit]: the first position of the symbol whose
    stop or target is reached decides; the stop is tested first. *)
Definition exit_of (pos : open_position) (current_price : Q) : option string :=
  if String.eqb (direction pos) "buy"
  then if Qleb current_price (stop_loss pos) then Some "stop_loss"
       else if Qgeb current_price (take_profit pos) then Some "take_profit"
       else None
  else if Qgeb current_price (stop_loss pos) then Some "stop_loss"
       else if Qleb current_price (take_profit pos) then Some "take_profit"
       else None.

Fixpoint first_exit (sym : string) (current_price : Q)
    (positions : list open_position) : option string :=
  match positions with
  | [] => None
  | pos :: rest =>
      if String.eqb (symbol pos) sym
      then match exit_of pos current_price with
           | Some why => Some why
           | None => first_exit sym current_price rest
           end
      else first_exit sym current_price rest
  end.

Definition check_stop_loss_take_profit (self : t) (sym : string) (current_price : Q)
    : option string :=
  first_exit sym current_price (open_positions self).

(** [update_trailing_stops].  The two callbacks are the caller's and may
    raise: [get_latest_data(symbol)] answers a frame or [None], and the calls
    [update_broker_sl(symbol, new_sl)], made after the position is changed,
    are collected in order.  A NaN ATR (fewer than [ATR_PERIOD] rows) makes
    both comparisons false, so the position is left alone. *)
Definition with_stop (pos : open_position) (new_stop : Q) : open_position :=
  {| symbol := symbol pos; direction := direction pos; entry_price := entry_price pos;
     lot_size := lot_size pos; stop_loss := new_stop; take_profit := take_profit pos;
     trailing_stop := Some new_stop; unrealized_pnl := unrealized_pnl pos;
     pnl := pnl pos |}.

Definition trail_position
    (get_latest_data : string -> result (option (list Indicators.candle)))
    (update_broker_sl : string -> Q -> result unit)
    (pos : open_position) : result (open_position * list (string * Q)) :=
  latest <- get_latest_data (symbol pos) ;;
  match latest with
  | None => Ok (pos, [])
  | Some data =>
      if (List.length data <? 2)%nat then Ok (pos, [])
      else
        last_row <- Indicators.iloc_last data ;;
        let price := Indicators.close last_row in
        atr_val <- Indicators.iloc_last (Indicators.calculate_atr data ATR_PERIOD) ;;
        match atr_val with
        | None => Ok (pos, [])
        | Some a =>
            if String.eqb (direction pos) "buy"
            then let new_trailing_stop := price - ATR_MULTIPLIER * a in
                 if Qgtb new_trailing_stop (stop_loss pos)
                 then sent <- update_broker_sl (symbol pos) new_trailing_stop ;;
                      Ok (with_stop pos new_trailing_stop,
                          [(symbol pos, new_trailing_stop)])
                 else Ok (pos, [])
            else let new_trailing_stop := price + ATR_MULTIPLIER * a in
                 if Qltb new_trailing_stop (stop_loss pos)
                 then sent <- update_broker_sl (symbol pos) new_trailing_stop ;;
                      Ok (with_stop pos new_trailing_stop,
                          [(symbol pos, new_trailing_stop)])
                 else Ok (pos, [])
        end
  end.

Fixpoint trail_positions
    (get_latest_data : string -> result (option (list Indicators.candle)))
    (update_broker_sl : string -> Q -> result unit)
    (positions : list open_position)
    : result (list open_position * list (string * Q)) :=
  match positions with
  | [] => Ok ([], [])
  | pos :: rest =>
      first <- trail_position get_latest_data update_broker_sl pos ;;
      others <- trail_positions get_latest_data update_broker_sl rest ;;
      Ok (fst first :: fst others, snd first ++ snd others)
  end.

Definition update_trailing_stops (self : t)
    (get_latest_data : string -> result (option (list Indicators.candle)))
    (update_broker_sl : string -> Q -> result unit)
    : result (t * list (string * Q)) :=
  done <- trail_positions get_latest_data update_broker_sl (open_positions self) ;;
  Ok (set_open_positions self (fst done), snd done).

(** [calculate_stop_loss] and [calculate_take_profit].  The mode is the
    constant [SLTP_MODE] of [config.py]; [data] is the optional frame.  The
    ATR is the last value of [calculate_atr(data, ATR_PERIOD)], NaN on a
    frame shorter than the period, and then so is the price returned. *)
Definition calculate_stop_loss (self : t) (entry : Q) (dir : string)
    (data : option (list Indicators.candle)) : result Indicators.float_or_nan :=
  if String.eqb SLTP_MODE "fixed" then
    let pip_value := 1 # 10 in
    let sl_pips := FIXED_STOP_LOSS_PIPS * pip_value in
    Ok (Some (if String.eqb dir "buy" then entry - sl_pips else entry + sl_pips))
  else
    match String.eqb SLTP_MODE "atr", data with
    | true, Some frame =>
        atr <- Indicators.iloc_last (Indicators.calculate_atr frame ATR_PERIOD) ;;
        Ok match atr with
           | Some a =>
               let sl_atr := ATR_STOP_LOSS_MULTIPLIER * a in
               Some (if String.eqb dir "buy" then entry - sl_atr else entry + sl_atr)
           | None => None
           end
    | _, _ =>
        Ok (Some (if String.eqb dir "buy"
                  then entry * (1 - stop_loss_pct self)
                  else entry * (1 + stop_loss_pct self)))
    end.

Definition calculate_take_profit (self : t) (entry : Q) (dir : string)
    (data : option (list Indicators.candle)) : result Indicators.float_or_nan :=
  if String.eqb SLTP_MODE "fixed" then
    let pip_value := 1 # 10 in
    let tp_pips := FIXED_TAKE_PROFIT_PIPS * pip_value in
    Ok (Some (if String.eqb dir "buy" then entry + tp_pips else entry - tp_pips))
  else
    match String.eqb SLTP_MODE "atr", data with
    | true, Some frame =>
        atr <- Indicators.iloc_last (Indicators.calculate_atr frame ATR_PERIOD) ;;
        Ok match atr with
           | Some a =>
               let tp_atr := ATR_TAKE_PROFIT_MULTIPLIER * a in
               Some (if String.eqb dir "buy" then entry + tp_atr else entry - tp_atr)
           | None => None
           end
    | _, _ =>
        Ok (Some (if String.eqb dir "buy"
                  then entry * (1 + take_profit_pct self)
                  else entry * (1 - take_profit_pct self)))
    end.

End RiskManager.

(** ** [Backtester.run] and [backtest/optimizer.py] *)

Section Run.

(** What [run] calls outside the loop and the evaluation: the strategy
    built from [self.data], [self.lot_size] and the parameters, whose
    [generate_signals()] gives the frame; [calculate_atr(self.data,
    ATR_PERIOD)]; the three plots and the HTML report, which write files.
    Each of the calls may raise. *)
Variable Params : Type.
Variable generate_signals : backtester -> Params -> result (list row).
Variable atr_series : Z -> option Q.
Variable sharpe_of : list Q -> Q.
Variable report : sim_state -> performance -> result unit.

Definition run (self : backtester) (self_trades : list trade)
    (self_equity_curve : list equity_point) (strategy_params : Params)
    : result performance :=
  signals <- generate_signals self strategy_params ;;
  st <- _simulate_trading self atr_series self_trades self_equity_curve signals ;;
  performance <- _calculate_performance sharpe_of (trades st) (equity_curve st) ;;
  written <- report st performance ;;
  Ok performance.

End Run.

Module Optimizer.

(** A parameter dict of the grid; the values are integers here. *)
Definition param_dict : Type := list (string * Z).

Fixpoint lookup (key : string) (d : param_dict) : option Z :=
  match d with
  | [] => None
  | (k, v) :: rest => if String.eqb k key then Some v else lookup key rest
  end.

(** The [itertools.product] of the value lists of [param_grid], each tuple
    zipped with the keys: the last key varies fastest. *)
Fixpoint combinations (param_grid : list (string * list Z)) : list param_dict :=
  match param_grid with
  | [] => [[]]
  | (k, values) :: rest =>
      flat_map (fun v => map (cons (k, v)) (combinations rest)) values
  end.

(** [_is_valid_combination] *)
Definition _is_valid_combination (params : param_dict) : bool :=
  match lookup "short_window" params, lookup "long_window" params with
  | Some short, Some long => if (short >=? long)%Z then false else true
  | _, _ => true
  end.

(** [performance.get(metric, -np.inf)]: minus infinity, a number, or a
    value that is not a number (the lists under ['trades'] and
    ['equity_curve']). *)
Inductive score : Type :=
| NegInf
| Num (q : Q)
| NotNum (v : perf_value).

Definition score_of (performance : performance) (metric : string) : score :=
  match perf_get metric performance with
  | None => NegInf
  | Some (PNum q) => Num q
  | Some v => NotNum v
  end.

(** [score > best_score]; comparing a list with a float raises
    [TypeError], here [None]. *)
Definition greater (s best : score) : option bool :=
  match s, best with
  | NotNum _, _ => None
  | _, NotNum _ => None
  | NegInf, _ => Some false
  | Num _, NegInf => Some true
  | Num a, Num b => Some (Qgtb a b)
  end.

(** One element of [self.results]. *)
Record outcome : Type := mkOutcome {
  o_params : param_dict;
  o_performance : performance;
  o_score : score
}.

(** The variables of [grid_search] and [self.results]. *)
Record search : Type := mkSearch {
  best_score : score;
  best_params : option param_dict;
  best_performance : option performance;
  results : list outcome
}.

Section GridSearch.

Variable generate_signals : backtester -> param_dict -> result (list row).
Variable atr_series : Z -> option Q.
Variable sharpe_of : list Q -> Q.
Variable report : sim_state -> performance -> result unit.
Variable optimization_metric : string.

(** The body of the loop.  Everything from the construction of the
    backtester on sits in a [try] whose handler logs and goes on to the
    next combination; a result appended before an exception stays. *)
Definition try_combination (min_trades : Z) (acc : search) (params : param_dict)
    : search :=
  if negb (_is_valid_combination params) then acc
  else
    match run param_dict generate_signals atr_series sharpe_of report
            default_backtester [] [] params with
    | Raise _ => acc
    | Ok performance =>
        match perf_get "num_trades" performance with
        | Some (PNum num_trades) =>
            if Qltb num_trades (inject_Z min_trades) then acc
            else
              let s := score_of performance optimization_metric in
              let result := {| o_params := params; o_performance := performance;
                               o_score := s |} in
              let appended := results acc ++ [result] in
              match greater s (best_score acc) with
              | Some true =>
                  {| best_score := s; best_params := Some params;
                     best_performance := Some performance; results := appended |}
              | _ =>
                  {| best_score := best_score acc; best_params := best_params acc;
                     best_performance := best_performance acc; results := appended |}
              end
        | _ => acc
        end
    end.

(** [grid_search]: what it returns, [(best_params, best_performance,
    self.results)]. *)
Definition grid_search (self_results : list outcome)
    (param_grid : list (string * list Z)) (min_trades : Z)
    : option param_dict * option performance * list outcome :=
  let final :=
    fold_left (try_combination min_trades) (combinations param_grid)
      {| best_score := NegInf; best_params := None; best_performance := None;
         results := self_results |} in
  (best_params final, best_performance final, results final).

End GridSearch.

End Optimizer.

(** ** Vocabulary of the properties *)

(** The close conditions in the order the specification lists them, each
    with the reason it stands for; the opposite-signal condition holds when
    the ['signal'] column carries the value against the position. *)
Definition close_conditions (p : position) (ts : option Q) (current_price : Q)
    (r : row) : list (exit_reason * bool) :=
  [ (trailing_stop_hit, trailing_hit (pos_direction p) ts current_price);
    (stop_loss_hit, stop_hit p current_price);
    (take_profit_hit, target_hit p current_price);
    (opposite_signal,
     match signal r with
     | Some s => (s =? opposite (pos_direction p))%Z
     | None => false
     end) ].

(** "First satisfied condition wins." *)
Fixpoint first_satisfied (conds : list (exit_reason * bool)) : option exit_reason :=
  match conds with
  | [] => None
  | (why, holds) :: rest => if holds then Some why else first_satisfied rest
  end.

(** What one bar appends to the trade list. *)
Definition appended (before after : sim_state) : list trade :=
  skipn (List.length (trades before)) (trades after).

(** The exit reason recorded on a bar, if the bar closed a position: a close
    record, when there is one, is the first record the bar appends. *)
Definition recorded_exit (before after : sim_state) : option exit_reason :=
  match appended before after with
  | Closed c :: _ => Some (ct_exit_reason c)
  | _ => None
  end.

(** The order in which a trailing stop may move: up for a long position,
    down for a short one; a stop that is not set yet may take any value, and
    a stop that is set stays set. *)
Definition tightened (d : direction) (old new : option Q) : Prop :=
  match old, new with
  | None, _ => True
  | Some _, None => False
  | Some t, Some t' =>
      match d with
      | Long => t <= t'
      | Short => t' <= t
      end
  end.

(** The trailing stop a bar leaves on a position that was open when the bar
    began: the one stored in the close record if the bar closes the position,
    the loop's variable otherwise. *)
Definition stop_after (before after : sim_state) : option Q :=
  match appended before after with
  | Closed c :: _ => ct_trailing_stop c
  | _ => trailing_stop after
  end.

(** The states of a run: the one it starts from, then the one after each
    bar. *)
Fixpoint states_from (self : backtester) (atr_series : Z -> option Q)
    (st : sim_state) (signals : list row) : result (list sim_state) :=
  match signals with
  | [] => Ok [st]
  | r :: rest =>
      st' <- sim_step self atr_series st r ;;
      later <- states_from self atr_series st' rest ;;
      Ok (st :: later)
  end.

(** No bar from the [i]-th state to the [j]-th records an exit. *)
Definition held (states : list sim_state) (i j : nat) : Prop :=
  forall k s s',
    (i <= k < j)%nat ->
    nth_error states k = Some s -> nth_error states (S k) = Some s' ->
    recorded_exit s s' = None.

(** [n] is strictly tighter than [t]. *)
Definition tighter (d : direction) (n t : Q) : Prop :=
  match d with
  | Long => t < n
  | Short => n < t
  end.

(** The sum of ['pnl'] over the records of a trade list that carry one. *)
Fixpoint realized_pnl (ts : list trade) : Q :=
  match ts with
  | [] => 0
  | Closed c :: rest => ct_pnl c + realized_pnl rest
  | Entry _ :: rest => realized_pnl rest
  end.

Definition is_entry (t : trade) : bool :=
  match t with
  | Entry _ => true
  | Closed _ => false
  end.

(** The drawdown flag as the entry test of a bar sees it: the stored flag,
    or the threshold crossed by the equity the bar starts with. *)
Definition halted (self : backtester) (st : sim_state) : bool :=
  update_drawdown_triggered self
    (current_drawdown (update_max_equity st) (equity st)) (drawdown_triggered st).

(** The realized PnL of a close record, by the formula of the
    specification. *)
Definition pnl_by_formula (self : backtester) (c : closed_trade) : Q :=
  match ct_direction c with
  | Long => (ct_exit_price c - ct_entry_price c) * ct_lot_size c * 100000
  | Short => (ct_entry_price c - ct_exit_price c) * ct_lot_size c * 100000
  end - commission self * ct_lot_size c * 100000.

(** An entry record describes a position; a close record repeats an entry
    record. *)
Definition logged (e : entry_log) (p : position) : Prop :=
  el_entry_time e = entry_time p /\ el_symbol e = symbol p /\
  el_direction e = pos_direction p /\ el_entry_price e = entry_price p /\
  el_lot_size e = lot_size p /\ el_stop_loss e = stop_loss p /\
  el_take_profit e = take_profit p.

Definition closes (c : closed_trade) (e : entry_log) : Prop :=
  ct_entry_time c = el_entry_time e /\ ct_symbol c = el_symbol e /\
  ct_direction c = el_direction e /\ ct_entry_price c = el_entry_price e /\
  ct_lot_size c = el_lot_size e /\ ct_stop_loss c = el_stop_loss e /\
  ct_take_profit c = el_take_profit e.

(** A trade log read from left to right with the entry record that is still
    waiting for its close record: an entry record comes only when none is
    waiting, a close record only when one is, and repeats it. *)
Fixpoint well_paired (waiting : option entry_log) (ts : list trade)
    (final : option entry_log) : Prop :=
  match ts with
  | [] => waiting = final
  | Entry e :: rest => waiting = None /\ well_paired (Some e) rest final
  | Closed c :: rest =>
      (exists e, waiting = Some e /\ closes c e) /\ well_paired None rest final
  end.

(** The trailing stop is set and at least as tight as the stop loss. *)
Definition covered (p : position) (ts : option Q) : Prop :=
  match ts with
  | None => False
  | Some t =>
      match pos_direction p with
      | Long => stop_loss p <= t
      | Short => t <= stop_loss p
      end
  end.

(** The signal value that asks for a position in direction [d]. *)
Definition signal_for (d : direction) : Z :=
  match d with
  | Long => 1%Z
  | Short => (-1)%Z
  end.

Definition flip (d : direction) : direction :=
  match d with
  | Long => Short
  | Short => Long
  end.

(** How [update_trailing_stops] may change a position: it leaves it as it
    is, or it moves the stop strictly in the favourable direction (up for
    ['buy'], down for any other direction), puts the trailing stop on the
    new stop and keeps every other field. *)
Definition trailed (pos pos' : RiskManager.open_position) : Prop :=
  pos' = pos \/
  exists new_stop,
    pos' = {| RiskManager.symbol := RiskManager.symbol pos;
              RiskManager.direction := RiskManager.direction pos;
              RiskManager.entry_price := RiskManager.entry_price pos;
              RiskManager.lot_size := RiskManager.lot_size pos;
              RiskManager.stop_loss := new_stop;
              RiskManager.take_profit := RiskManager.take_profit pos;
              RiskManager.trailing_stop := Some new_stop;
              RiskManager.unrealized_pnl := RiskManager.unrealized_pnl pos;
              RiskManager.pnl := RiskManager.pnl pos |} /\
    if String.eqb (RiskManager.direction pos) "buy"
    then RiskManager.stop_loss pos < new_stop
    else new_stop < RiskManager.stop_loss pos.

(** The calls to [update_broker_sl] that go with a list of positions before
    and after: one call, with the new stop, for each position whose stop is
    no longer the old one. *)
Fixpoint broker_calls (before after : list RiskManager.open_position)
    : list (string * Q) :=
  match before, after with
  | pos :: rest, pos' :: rest' =>
      (if Qeq_bool (RiskManager.stop_loss pos) (RiskManager.stop_loss pos')
       then []
       else [(RiskManager.symbol pos', RiskManager.stop_loss pos')])
      ++ broker_calls rest rest'
  | _, _ => []
  end.

(** The price has reached the stop, or the target, of a position of the
    risk manager. *)
Definition reached_stop (pos : RiskManager.open_position) (price : Q) : Prop :=
  if String.eqb (RiskManager.direction pos) "buy"
  then price <= RiskManager.stop_loss pos
  else RiskManager.stop_loss pos <= price.

Definition reached_target (pos : RiskManager.open_position) (price : Q) : Prop :=
  if String.eqb (RiskManager.direction pos) "buy"
  then RiskManager.take_profit pos <= price
  else price <= RiskManager.take_profit pos.

(** The quantities [can_open_position] compares with the limits of the
    manager. *)
Definition session_drawdown (self : RiskManager.t) : Q :=
  (RiskManager.session_start_balance self - RiskManager.account_balance self)
  / RiskManager.session_start_balance self.

Definition unrealized_of (pos : RiskManager.open_position) : Q :=
  match RiskManager.unrealized_pnl pos with
  | Some u => u
  | None => 0
  end.

Definition positions_of (self : RiskManager.t) (sym : string)
    : list RiskManager.open_position :=
  filter (fun pos => String.eqb (RiskManager.symbol pos) sym)
    (RiskManager.open_positions self).

Definition symbol_drawdown (self : RiskManager.t) (sym : string) : Q :=
  Qabs (Qsum (map unrealized_of (positions_of self sym)))
  / RiskManager.account_balance self.

Definition portfolio_risk (self : RiskManager.t) : Q :=
  Qsum (map (fun pos => Qabs (unrealized_of pos) / RiskManager.account_balance self)
          (RiskManager.open_positions self)).

(** The conditions of section 4.2 under which a position may be opened,
    with the divisions they need. *)
Definition may_open (self : RiskManager.t) (sym : string) : Prop :=
  (RiskManager.consecutive_losses self < RiskManager.circuit_breaker_losses self)%Z /\
  ~ RiskManager.session_start_balance self == 0 /\
  session_drawdown self <= RiskManager.max_drawdown_per_session self /\
  (positions_of self sym = [] \/
   ~ RiskManager.account_balance self == 0 /\
   symbol_drawdown self sym <= RiskManager.max_drawdown_per_symbol self) /\
  (Z.of_nat (List.length (RiskManager.open_positions self))
   < RiskManager.max_positions self)%Z /\
  (RiskManager.open_positions self = [] \/ ~ RiskManager.account_balance self == 0) /\
  portfolio_risk self < RiskManager.max_portfolio_risk self.

(** The element [record_trade_result] appends to [trade_history]. *)
Definition recorded (o : RiskManager.outcome) : RiskManager.trade_result :=
  {| RiskManager.tr_symbol := RiskManager.o_symbol o;
     RiskManager.tr_pnl := RiskManager.o_pnl o;
     RiskManager.tr_win_loss := RiskManager.o_win_loss o;
     RiskManager.tr_timestamp := RiskManager.o_now o |}.

(** ** Concrete runs *)

(** An ATR series with the same value at every label. *)
Definition atr_const (a : Q) : Z -> option Q := fun _ => Some a.

(** A frame with both signal columns. *)
Definition bar (i : Z) (price : Q) (s : Z) : row :=
  {| idx := i; close := price; signal := Some s; Signal := Some s |}.

(** Scenario A of the specification: a buy at 2000 with ATR 5, a rise to
    2010, a fall to 1999. *)
Definition scenario_A : list row := [bar 0 2000 1; bar 1 2010 0; bar 2 1999 0].

(** A buy at 2000, a fall to 1995 that costs more than the whole balance, a
    further fall to 1985 under a buy signal, one more bar with a buy
    signal. *)
Definition falling_market : list row :=
  [bar 0 2000 1; bar 1 1995 0; bar 2 1985 1; bar 3 1985 1].

(** The state a run ends in, for runs that do not raise. *)
Definition run_of (m : result sim_state) : sim_state :=
  match m with
  | Ok st => st
  | Raise _ => initial_state [] []
  end.

Definition scenario_A_final : sim_state :=
  run_of (_simulate_trading default_backtester (atr_const 5) [] [] scenario_A).

(** Scenario B of the specification: the first bar of a run is a buy at
    2000 with ATR 5, hence a stop distance of 10. *)
Definition first_bar : sim_state :=
  run_of (sim_step default_backtester (atr_const 5) (initial_state [] []) (bar 0 2000 1)).

Definition first_entry : entry_log :=
  new_entry_log default_backtester Long (bar 0 2000 1) (Some 5)
    (risk_per_trade default_backtester * starting_balance /
     (stop_distance default_backtester Long (bar 0 2000 1) (Some 5) *
      pip_value default_backtester)).

Definition scenario_A_position : position :=
  new_position default_backtester Long (bar 0 2000 1) (Some 5) (el_lot_size first_entry).

(** Scenario A after the rise to 2010, the position still open. *)
Definition after_rise : sim_state :=
  run_of (sim_step default_backtester (atr_const 5) first_bar (bar 1 2010 0)).

(** A fall to 1980, under the trailing stop and under the stop loss. *)
Definition after_crash : sim_state :=
  run_of (sim_step default_backtester (atr_const 5) after_rise (bar 2 1980 0)).

(** The falling market after its first two bars: the position is open and
    its loss exceeds the balance. *)
Definition under_water : sim_state :=
  run_of (simulate_from default_backtester (atr_const 5) (initial_state [] [])
            [bar 0 2000 1; bar 1 1995 0]).

Definition falling_market_final : sim_state :=
  run_of (_simulate_trading default_backtester (atr_const 5) [] [] falling_market).

(** Five losing trades in a row, the default [circuit_breaker_losses]. *)
Definition five_losses : list RiskManager.outcome :=
  repeat {| RiskManager.o_symbol := "XAUUSD"; RiskManager.o_pnl := - (10);
            RiskManager.o_win_loss := "loss"; RiskManager.o_now := 0%Z |} 5.

(** The states of scenario A. *)
Definition scenario_A_states : list sim_state :=
  [initial_state [] []; first_bar; after_rise; scenario_A_final].

(** A close record and an equity curve to evaluate. *)
Definition one_close : closed_trade :=
  close_record scenario_A_position 2 1999 (Some 2000) (- 1000300) (- 990300)
    trailing_stop_hit.

Definition sample_curve : list equity_point :=
  [ {| ep_time := 0; ep_balance := 10000; ep_equity := 10000; ep_position := false |};
    {| ep_time := 1; ep_balance := 10000; ep_equity := 9000; ep_position := true |} ].

(** Two positions on the same symbol and one on another. *)
Definition gold_buy : RiskManager.open_position :=
  {| RiskManager.symbol := "XAUUSD"; RiskManager.direction := "buy";
     RiskManager.entry_price := 2000; RiskManager.lot_size := 1 # 100;
     RiskManager.stop_loss := 1990; RiskManager.take_profit := 2020;
     RiskManager.trailing_stop := Some 1990; RiskManager.unrealized_pnl := Some 0;
     RiskManager.pnl := 0 |}.

Definition gold_sell : RiskManager.open_position :=
  {| RiskManager.symbol := "XAUUSD"; RiskManager.direction := "sell";
     RiskManager.entry_price := 2005; RiskManager.lot_size := 1 # 100;
     RiskManager.stop_loss := 2015; RiskManager.take_profit := 1985;
     RiskManager.trailing_stop := None; RiskManager.unrealized_pnl := Some 0;
     RiskManager.pnl := 0 |}.

Definition euro_buy : RiskManager.open_position :=
  {| RiskManager.symbol := "EURUSD"; RiskManager.direction := "buy";
     RiskManager.entry_price := 1; RiskManager.lot_size := 1 # 100;
     RiskManager.stop_loss := 9 # 10; RiskManager.take_profit := 12 # 10;
     RiskManager.trailing_stop := None; RiskManager.unrealized_pnl := Some 0;
     RiskManager.pnl := 0 |}.

Definition three_positions : RiskManager.t :=
  RiskManager.set_open_positions RiskManager.default [euro_buy; gold_buy; gold_sell].

(** Frames for the indicators: a flat market with a range of 2 on every
    bar, over 3 bars and over 14. *)
Definition flat_candle : Indicators.candle :=
  {| Indicators.high := 2001; Indicators.low := 1999; Indicators.close := 2000 |}.

Definition short_frame : list Indicators.candle := repeat flat_candle 3.
Definition full_frame : list Indicators.candle := repeat flat_candle 14.

(** The falling market after the bar that stops the position out, and the
    states of the whole run. *)
Definition after_stop : sim_state :=
  run_of (sim_step default_backtester (atr_const 5) under_water (bar 2 1985 1)).

Definition falling_market_states : list sim_state :=
  [initial_state [] []; first_bar; under_water; after_stop; falling_market_final].

(** A row as the strategies of the repository write it: they set
    ['Signal'] and no ['signal'] column. *)
Definition strategy_bar (i : Z) (price : Q) (s : Z) : row :=
  {| idx := i; close := price; signal := None; Signal := Some s |}.

(** Callbacks for [update_trailing_stops]: a frame for gold only, and a
    broker that takes every stop. *)
Definition gold_data (sym : string) : result (option (list Indicators.candle)) :=
  if String.eqb sym "XAUUSD" then Ok (Some full_frame) else Ok None.

Definition broker_accepts (sym : string) (stop : Q) : result unit := Ok tt.

(** * Properties *)

(** ** Boolean comparisons reflect the order of [Q] *)

Lemma Qleb_le x y : Qleb x y = true <-> x <= y.
Proof. apply Qle_bool_iff. Qed.

Lemma Qltb_lt x y : Qltb x y = true <-> x < y.
Proof.
  unfold Qltb. rewrite negb_true_iff.
  split; intro H.
  - apply Qnot_le_lt. intro Hle. apply Qle_bool_iff in Hle. congruence.
  - destruct (Qle_bool y x) eqn:E; [|reflexivity].
    apply Qle_bool_iff in E. exfalso. apply (Qlt_not_le _ _ H E).
Qed.

Lemma Qltb_ge x y : Qltb x y = false <-> y <= x.
Proof.
  unfold Qltb. rewrite negb_false_iff. apply Qle_bool_iff.
Qed.

Lemma Qleb_gt x y : Qleb x y = false <-> y < x.
Proof.
  unfold Qleb. rewrite <- (negb_true_iff (Qle_bool x y)). apply Qltb_lt.
Qed.

Lemma Qgtb_lt x y : Qgtb x y = true <-> y < x.
Proof. apply Qltb_lt. Qed.

Lemma Qgtb_le x y : Qgtb x y = false <-> x <= y.
Proof. apply Qltb_ge. Qed.

Lemma Qgeb_le x y : Qgeb x y = true <-> y <= x.
Proof. apply Qleb_le. Qed.

(** ** The error monad *)

Lemma Some_eq {A : Type} (a b : A) : Some a = Some b -> a = b.
Proof. now intros [= ->]. Qed.

Lemma bind_Ok {A B : Type} (m : result A) (k : A -> result B) (b : B) :
  bind m k = Ok b -> exists a, m = Ok a /\ k a = Ok b.
Proof.
  destruct m as [a|e]; simpl; intro H; [exists a; split; [reflexivity|exact H]|discriminate].
Qed.

Lemma py_div_Ok x y q : py_div x y = Ok q -> ~ y == 0 /\ q = x / y.
Proof.
  unfold py_div. destruct (Qeq_bool y 0) eqn:E; [discriminate|].
  intro H. injection H as <-. split; [|reflexivity].
  intro Hy. apply Qeq_bool_iff in Hy. congruence.
Qed.

Lemma py_div_nonzero x y : ~ y == 0 -> py_div x y = Ok (x / y).
Proof.
  intro Hy. unfold py_div. destruct (Qeq_bool y 0) eqn:E; [|reflexivity].
  apply Qeq_bool_iff in E. contradiction.
Qed.

(** ** One bar, case by case *)

Lemma manage_position_cases self st r atr m :
  manage_position self st r atr = Ok m ->
  (cur_position st = None /\ m = carry st None (trailing_stop st))
  \/ (exists p,
        cur_position st = Some p /\
        let ts := update_trailing (pos_direction p) (trailing_stop st) (close r) atr in
        (close_reason p ts (close r) r = Ok None /\ m = carry st (Some p) ts
         \/ exists w, close_reason p ts (close r) r = Ok (Some w) /\
                      m = close_out self st p r ts w)).
Proof.
  unfold manage_position. destruct (cur_position st) as [p|].
  - intro H. apply bind_Ok in H as ([w|] & Hw & Hm); injection Hm as <-;
      right; exists p; split; trivial; simpl; eauto.
  - intro H. injection H as <-. now left.
Qed.

Lemma open_position_Ok self d m r atr m' :
  open_position self d m r atr = Ok m' ->
  exists lots,
    position_size self (m_balance m) (stop_distance self d r atr) = Ok lots /\
    m' = {| m_balance := m_balance m;
            m_equity := m_equity m;
            m_position := Some (new_position self d r atr lots);
            m_trailing_stop := entry_trailing d (entry_price_of self d (close r)) atr;
            m_trades := m_trades m ++ [Entry (new_entry_log self d r atr lots)] |}.
Proof.
  unfold open_position. intro H. apply bind_Ok in H as (lots & Hl & Hm).
  exists lots. split; [exact Hl|]. now injection Hm as <-.
Qed.

Lemma handle_new_signals_cases self triggered m r atr m' :
  handle_new_signals self triggered m r atr = Ok m' ->
  m' = m
  \/ (triggered = false /\ m_position m = None /\
      exists d, open_position self d m r atr = Ok m').
Proof.
  unfold handle_new_signals. destruct triggered; simpl.
  - intro H. injection H as <-. now left.
  - destruct (m_position m).
    + intro H. injection H as <-. now left.
    + intro H. apply bind_Ok in H as (s & _ & H).
      destruct (s =? 1)%Z; [right; eauto|].
      destruct (s =? -1)%Z; [right; eauto|].
      injection H as <-. now left.
Qed.

Lemma handle_new_signals_halted self m r atr m' :
  handle_new_signals self true m r atr = Ok m' -> m' = m.
Proof. simpl. now intros [= <-]. Qed.

Lemma handle_new_signals_open self triggered p m r atr m' :
  m_position m = Some p ->
  handle_new_signals self triggered m r atr = Ok m' -> m' = m.
Proof.
  unfold handle_new_signals. intros ->. destruct triggered; simpl; now intros [= <-].
Qed.

Lemma sim_step_Ok self atr_series st r st' :
  sim_step self atr_series st r = Ok st' ->
  exists m m',
    manage_position self st r (atr_at atr_series (idx r)) = Ok m /\
    handle_new_signals self (halted self st) m r (atr_at atr_series (idx r)) = Ok m' /\
    st' = {| balance := m_balance m';
             equity := mark_to_market self m' (close r);
             cur_position := m_position m';
             trailing_stop := m_trailing_stop m';
             max_equity := update_max_equity st;
             drawdown_triggered := halted self st;
             trades := m_trades m';
             equity_curve := equity_curve st ++
               [{| ep_time := idx r; ep_balance := m_balance m';
                   ep_equity := mark_to_market self m' (close r);
                   ep_position := match m_position m' with
                                  | Some _ => true
                                  | None => false
                                  end |}] |}.
Proof.
  unfold sim_step. intro H.
  apply bind_Ok in H as (m & Hm & H). apply bind_Ok in H as (m' & Hm' & H).
  exists m, m'. repeat split; trivial. now injection H as <-.
Qed.

(** The loop carries any property that the first state has and that every
    bar preserves. *)
Lemma simulate_from_invariant self atr_series (P : sim_state -> Prop) :
  (forall st r st', P st -> sim_step self atr_series st r = Ok st' -> P st') ->
  forall signals st st',
    P st -> simulate_from self atr_series st signals = Ok st' -> P st'.
Proof.
  intros Hstep signals. induction signals as [|r rest IH]; simpl; intros st st' HP H.
  - now injection H as <-.
  - apply bind_Ok in H as (st1 & H1 & H2). eauto.
Qed.

(** Splits a successful bar into what the position management did (nothing,
    kept the position, closed it) and what the entry handling did (nothing,
    opened a position). *)
Ltac step_cases H :=
  let m := fresh "m" in
  let m' := fresh "m'" in
  let Hm := fresh "Hm" in
  let Hm' := fresh "Hm'" in
  let Ho := fresh "Hopen" in
  apply sim_step_Ok in H as (m & m' & Hm & Hm' & ->);
  apply manage_position_cases in Hm
    as [[?Hflat ->] | (?p & ?Hpos & [[?Hwhy ->] | (?w & ?Hwhy & ->)])];
  apply handle_new_signals_cases in Hm'
    as [-> | (?Hclear & ?Hnone & ?d & Ho)];
  try (apply open_position_Ok in Ho as (?lots & ?Hlots & ->));
  unfold carry, close_out in *;
  cbn [balance equity cur_position trailing_stop max_equity drawdown_triggered
       trades equity_curve m_balance m_equity m_position m_trailing_stop m_trades] in *;
  try discriminate.

Lemma simulate_from_appended self atr_series (R : trade -> Prop) :
  (forall st r st',
      sim_step self atr_series st r = Ok st' ->
      exists new, trades st' = trades st ++ new /\ Forall R new) ->
  forall signals st st',
    simulate_from self atr_series st signals = Ok st' ->
    exists new, trades st' = trades st ++ new /\ Forall R new.
Proof.
  intros Hstep signals. induction signals as [|r rest IH]; simpl; intros st st' H.
  - injection H as <-. exists []. split; [now rewrite app_nil_r|constructor].
  - apply bind_Ok in H as (st1 & H1 & H2).
    apply Hstep in H1 as (new1 & E1 & F1). apply IH in H2 as (new2 & E2 & F2).
    exists (new1 ++ new2). split.
    + now rewrite E2, E1, app_assoc.
    + apply Forall_app; split; assumption.
Qed.

(** ** Realized PnL *)

Lemma close_record_pnl self p i current_price ts bal why :
  ct_pnl (close_record p i current_price ts (_calculate_pnl self p current_price) bal why)
  = pnl_by_formula self
      (close_record p i current_price ts (_calculate_pnl self p current_price) bal why).
Proof. reflexivity. Qed.

(** C7.  Every close record a run appends carries, as its [pnl], the price
    move from entry to exit in the direction of the position, times lot size
    times 100000, less commission times lot size times 100000. *)
Theorem realized_pnl_formula :
  forall self atr_series self_trades self_equity_curve signals st,
    _simulate_trading self atr_series self_trades self_equity_curve signals = Ok st ->
    exists new,
      trades st = self_trades ++ new /\
      forall c, In (Closed c) new ->
        ct_pnl c =
          match ct_direction c with
          | Long => (ct_exit_price c - ct_entry_price c) * ct_lot_size c * 100000
          | Short => (ct_entry_price c - ct_exit_price c) * ct_lot_size c * 100000
          end - commission self * ct_lot_size c * 100000.
Proof.
  intros self atr_series ts ec signals st H.
  pose (R := fun t => match t with
                      | Closed c => ct_pnl c = pnl_by_formula self c
                      | Entry _ => True
                      end).
  apply (simulate_from_appended self atr_series R) in H.
  - destruct H as (new & E & F). exists new. split; [exact E|].
    intros c Hc. rewrite Forall_forall in F. exact (F _ Hc).
  - clear. intros st r st' H. step_cases H.
    + exists []. split; [now rewrite app_nil_r|constructor].
    + eexists. split; [reflexivity|]. repeat constructor.
    + exists []. split; [now rewrite app_nil_r|constructor].
    + eexists. split; [reflexivity|]. repeat constructor.
    + eexists. rewrite <- app_assoc. split; [reflexivity|]. repeat constructor.
Qed.

Lemma realized_pnl_formula_witness :
  _simulate_trading default_backtester (atr_const 5) [] [] scenario_A = Ok scenario_A_final /\
  exists new,
    trades scenario_A_final = [] ++ new /\
    forall c, In (Closed c) new ->
      ct_pnl c =
        match ct_direction c with
        | Long => (ct_exit_price c - ct_entry_price c) * ct_lot_size c * 100000
        | Short => (ct_entry_price c - ct_exit_price c) * ct_lot_size c * 100000
        end - commission default_backtester * ct_lot_size c * 100000.
Proof.
  assert (H : _simulate_trading default_backtester (atr_const 5) [] [] scenario_A
              = Ok scenario_A_final) by (vm_compute; reflexivity).
  split; [exact H|].
  exact (realized_pnl_formula default_backtester (atr_const 5) [] [] scenario_A
           scenario_A_final H).
Defined.

(** ** Fixed lot size of the risk manager *)

(** C10.  [RiskManager.calculate_position_size] answers 0.01 whatever the
    manager (its balance and risk settings included) and whatever the
    arguments, so any two calls agree. *)
Theorem calculate_position_size_constant :
  forall (Info : Type) (self self' : RiskManager.t) (entry_price entry_price' : Q)
         (stop_loss_price stop_loss_price' : Q) (symbol_info symbol_info' : option Info)
         (atr atr' risk_percent risk_percent' : option Q),
    RiskManager.calculate_position_size self entry_price stop_loss_price symbol_info
      atr risk_percent = 1 # 100 /\
    RiskManager.calculate_position_size self entry_price stop_loss_price symbol_info
      atr risk_percent =
    RiskManager.calculate_position_size self' entry_price' stop_loss_price' symbol_info'
      atr' risk_percent'.
Proof. intros. split; reflexivity. Qed.

(** ** Position sizing at entry *)

Lemma position_size_spec self bal dist lots :
  position_size self bal dist = Ok lots ->
  (0 < dist -> lots = risk_per_trade self * bal / (dist * pip_value self)) /\
  (dist <= 0 -> lots = bt_lot_size self).
Proof.
  unfold position_size. destruct (Qgtb dist 0) eqn:E.
  - apply Qgtb_lt in E. intro H. apply py_div_Ok in H as [_ ->]. split; [trivial|].
    intro Hle. exfalso. exact (Qlt_not_le _ _ E Hle).
  - apply Qgtb_le in E. intros [= <-]. split; [|trivial].
    intro Hlt. exfalso. exact (Qlt_not_le _ _ Hlt E).
Qed.

Lemma position_size_zero_distance self bal dist :
  dist == 0 -> position_size self bal dist = Ok (bt_lot_size self).
Proof.
  intro H. unfold position_size.
  destruct (Qgtb dist 0) eqn:E; [|reflexivity].
  apply Qgtb_lt in E. rewrite H in E. discriminate.
Qed.

(** C6.  Whenever a bar of the simulation loop opens a position, the lot
    size of the entry is [risk_per_trade * balance / (stop_distance *
    pip_value)] if the stop distance [|entry - sl|] is positive, and the
    configured [lot_size] if it is zero, in which case nothing is divided;
    with a balance of 10000, a risk fraction of 0.01, a stop distance of 10
    and a pip value of 1 the lot size is 10.  The balance is the one the
    bar has when it opens the position, and the open position carries the
    same lot size as the entry record. *)
Theorem position_sizing_at_entry :
  forall self atr_series st r st' earlier e,
    sim_step self atr_series st r = Ok st' ->
    trades st' = earlier ++ [Entry e] ->
    (List.length (trades st) <= List.length earlier)%nat ->
    let stop_distance := Qabs (el_entry_price e - el_stop_loss e) in
    (0 < stop_distance ->
     el_lot_size e == risk_per_trade self * balance st' / (stop_distance * pip_value self)) /\
    (stop_distance == 0 ->
     el_lot_size e = bt_lot_size self /\
     position_size self (balance st') stop_distance = Ok (bt_lot_size self)) /\
    (risk_per_trade self == 1 # 100 -> pip_value self == 1 -> balance st' == 10000 ->
     stop_distance == 10 -> el_lot_size e == 10) /\
    (exists p, cur_position st' = Some p /\ lot_size p = el_lot_size e /\
               entry_price p = el_entry_price e /\ stop_loss p = el_stop_loss e).
Proof.
  intros self atr_series st r st' earlier e H Htrades Hlen sd.
  assert (Hsize : position_size self (balance st') sd = Ok (el_lot_size e) /\
                  exists p, cur_position st' = Some p /\ lot_size p = el_lot_size e /\
                            entry_price p = el_entry_price e /\
                            stop_loss p = el_stop_loss e).
  { subst sd. step_cases H.
    - rewrite Htrades, length_app in Hlen. simpl in Hlen. lia.
    - apply app_inj_tail in Htrades as [_ [= <-]].
      split; [exact Hlots|]. eexists. repeat split.
    - rewrite Htrades, length_app in Hlen. simpl in Hlen. lia.
    - apply app_inj_tail in Htrades as [_ [=]].
    - apply app_inj_tail in Htrades as [_ [= <-]].
      split; [exact Hlots|]. eexists. repeat split. }
  destruct Hsize as [Hsize Hp].
  pose proof (position_size_spec _ _ _ _ Hsize) as [Hpos Hzero].
  assert (Hgen : 0 < sd ->
                 el_lot_size e == risk_per_trade self * balance st' / (sd * pip_value self)).
  { intro Hlt. now rewrite (Hpos Hlt). }
  split; [exact Hgen|]. split; [|split; [|exact Hp]].
  - intro Hz. split.
    + apply Hzero. rewrite Hz. apply Qle_refl.
    + apply position_size_zero_distance. exact Hz.
  - intros Hr Hpip Hbal Hsd.
    assert (Hlt : 0 < sd) by (rewrite Hsd; reflexivity).
    rewrite (Hgen Hlt), Hr, Hpip, Hbal, Hsd. reflexivity.
Qed.

Lemma position_sizing_at_entry_witness :
  sim_step default_backtester (atr_const 5) (initial_state [] []) (bar 0 2000 1)
    = Ok first_bar /\
  trades first_bar = [] ++ [Entry first_entry] /\
  Qabs (el_entry_price first_entry - el_stop_loss first_entry) == 10 /\
  el_lot_size first_entry == 10.
Proof.
  assert (Hstep : sim_step default_backtester (atr_const 5) (initial_state [] [])
                    (bar 0 2000 1) = Ok first_bar) by (vm_compute; reflexivity).
  assert (Htrades : trades first_bar = [] ++ [Entry first_entry])
    by (vm_compute; reflexivity).
  split; [exact Hstep|]. split; [exact Htrades|].
  destruct (position_sizing_at_entry default_backtester (atr_const 5) (initial_state [] [])
              (bar 0 2000 1) first_bar [] first_entry Hstep Htrades (le_n 0))
    as (_ & _ & Hten & _).
  split; [vm_compute; reflexivity|].
  apply Hten; vm_compute; reflexivity.
Defined.

(** ** Close conditions *)

Lemma appended_app before after new :
  trades after = trades before ++ new -> appended before after = new.
Proof.
  intro H. unfold appended. rewrite H, skipn_app, skipn_all, Nat.sub_diag.
  reflexivity.
Qed.

Lemma appended_same before after :
  trades after = trades before -> appended before after = [].
Proof.
  intro H. apply appended_app. now rewrite app_nil_r.
Qed.

(** The chain of tests of the source picks the first satisfied condition of
    the list of the specification. *)
Lemma close_reason_first_satisfied p ts current_price r why :
  close_reason p ts current_price r = Ok why ->
  why = first_satisfied (close_conditions p ts current_price r).
Proof.
  unfold close_reason, close_conditions, first_satisfied.
  destruct (trailing_hit (pos_direction p) ts current_price); [now intros [= <-]|].
  destruct (stop_hit p current_price); [now intros [= <-]|].
  destruct (target_hit p current_price); [now intros [= <-]|].
  destruct (signal r) as [s|]; simpl; [|discriminate].
  destruct (s =? opposite (pos_direction p))%Z; now intros [= <-].
Qed.

(** With a ['signal'] column the chain of tests always answers. *)
Lemma close_reason_total p ts current_price r s :
  signal r = Some s ->
  close_reason p ts current_price r
  = Ok (first_satisfied (close_conditions p ts current_price r)).
Proof.
  intro Hs. unfold close_reason, close_conditions, first_satisfied. rewrite Hs.
  destruct (trailing_hit (pos_direction p) ts current_price); [reflexivity|].
  destruct (stop_hit p current_price); [reflexivity|].
  destruct (target_hit p current_price); [reflexivity|].
  simpl. now destruct (s =? opposite (pos_direction p))%Z.
Qed.

(** On a bar that begins with a position open and that the loop completes,
    the exit reason the bar records is the first satisfied condition in the
    order trailing stop, stop loss, take profit, opposite signal (none
    recorded when none is satisfied); in particular a bar on which the
    trailing stop and the stop loss are both hit records the trailing stop.
    A bar that reaches the fourth test completes only on a frame that has a
    ['signal'] column. *)
Theorem close_priority_order :
  forall self atr_series st r st' p,
    cur_position st = Some p ->
    sim_step self atr_series st r = Ok st' ->
    let ts := update_trailing (pos_direction p) (trailing_stop st) (close r)
                (atr_at atr_series (idx r)) in
    recorded_exit st st' = first_satisfied (close_conditions p ts (close r) r) /\
    (trailing_hit (pos_direction p) ts (close r) = true ->
     stop_hit p (close r) = true ->
     recorded_exit st st' = Some trailing_stop_hit).
Proof.
  intros self atr_series st r st' p Hp H ts.
  assert (Hrec : recorded_exit st st' = first_satisfied (close_conditions p ts (close r) r)).
  { subst ts. unfold recorded_exit. step_cases H; try congruence;
      rewrite Hp in Hpos; injection Hpos as <-;
      apply close_reason_first_satisfied in Hwhy; rewrite <- Hwhy.
    - now rewrite appended_same.
    - now erewrite appended_app by reflexivity.
    - now erewrite appended_app by (cbn [trades]; rewrite <- app_assoc; reflexivity). }
  split; [exact Hrec|].
  intros Htrail _. rewrite Hrec. unfold close_conditions, first_satisfied.
  now rewrite Htrail.
Qed.

Lemma close_priority_order_witness :
  cur_position after_rise = Some scenario_A_position /\
  sim_step default_backtester (atr_const 5) after_rise (bar 2 1980 0) = Ok after_crash /\
  stop_hit scenario_A_position 1980 = true /\
  recorded_exit after_rise after_crash = Some trailing_stop_hit.
Proof.
  assert (Hp : cur_position after_rise = Some scenario_A_position)
    by (vm_compute; reflexivity).
  assert (Hstep : sim_step default_backtester (atr_const 5) after_rise (bar 2 1980 0)
                  = Ok after_crash) by (vm_compute; reflexivity).
  assert (Hstop : stop_hit scenario_A_position (close (bar 2 1980 0)) = true)
    by (vm_compute; reflexivity).
  split; [exact Hp|]. split; [exact Hstep|]. split; [exact Hstop|].
  refine (proj2 (close_priority_order default_backtester (atr_const 5) after_rise
                   (bar 2 1980 0) after_crash scenario_A_position Hp Hstep) _ Hstop).
  vm_compute; reflexivity.
Defined.

(** C1.  A buy at 2000 followed by a bar at 2005 with a sell signal, no
    stop or target reached.  On the frame a strategy of the repository
    builds, which has the ['Signal'] column only, the run raises
    [KeyError('signal')] at the opposite-signal test instead of closing the
    position; on the same bars with a ['signal'] column carrying the same
    values the position is closed with the reason opposite signal. *)
Theorem opposite_signal_test_raises :
  _simulate_trading default_backtester (atr_const 5) [] []
    [strategy_bar 0 2000 1; strategy_bar 1 2005 (-1)]
  = Raise (KeyError "signal") /\
  exists st e c e',
    _simulate_trading default_backtester (atr_const 5) [] []
      [bar 0 2000 1; bar 1 2005 (-1)] = Ok st /\
    trades st = [Entry e; Closed c; Entry e'] /\
    ct_exit_reason c = opposite_signal.
Proof.
  split; [vm_compute; reflexivity|].
  eexists. eexists. eexists. eexists.
  split; [vm_compute; reflexivity|]. split; reflexivity.
Qed.

(** ** Trailing stop *)

Lemma update_trailing_tightened d ts current_price atr :
  tightened d ts (update_trailing d ts current_price atr).
Proof.
  unfold update_trailing, tightened.
  destruct (new_trailing d current_price atr) as [n|], ts as [t|]; trivial.
  - destruct (improves d n t) eqn:E; destruct d; simpl in E;
      try apply Qle_refl; apply Qlt_le_weak.
    + now apply Qgtb_lt.
    + now apply Qltb_lt.
  - destruct d; apply Qle_refl.
Qed.

Lemma update_trailing_accepts d t current_price atr :
  update_trailing d (Some t) current_price atr = Some t \/
  exists n, new_trailing d current_price atr = Some n /\
            update_trailing d (Some t) current_price atr = Some n /\ tighter d n t.
Proof.
  unfold update_trailing.
  destruct (new_trailing d current_price atr) as [n|]; [|now left].
  destruct (improves d n t) eqn:E; [|now left].
  right. exists n. repeat split.
  destruct d; simpl in *; [now apply Qgtb_lt|now apply Qltb_lt].
Qed.

Lemma stop_after_update self atr_series st r st' p :
  cur_position st = Some p ->
  sim_step self atr_series st r = Ok st' ->
  stop_after st st'
  = update_trailing (pos_direction p) (trailing_stop st) (close r)
      (atr_at atr_series (idx r))
  /\ (recorded_exit st st' = None -> cur_position st' = Some p).
Proof.
  intros Hp H. unfold stop_after, recorded_exit. step_cases H; try congruence;
    rewrite Hp in Hpos; injection Hpos as <-.
  - now rewrite appended_same.
  - erewrite appended_app by reflexivity. split; [reflexivity|discriminate].
  - erewrite appended_app by (cbn [trades]; rewrite <- app_assoc; reflexivity).
    split; [reflexivity|discriminate].
Qed.

(** One bar that begins with a position open: the trailing stop the bar
    leaves is the old stop or the recomputed candidate, never a looser one,
    and a bar that records no exit keeps the position. *)
Lemma trailing_stop_step self atr_series st r st' p :
  cur_position st = Some p ->
  sim_step self atr_series st r = Ok st' ->
  tightened (pos_direction p) (trailing_stop st) (stop_after st st') /\
  (forall t, trailing_stop st = Some t ->
     stop_after st st' = Some t \/
     exists n, stop_after st st' = Some n /\ tighter (pos_direction p) n t) /\
  (recorded_exit st st' = None ->
   cur_position st' = Some p /\ stop_after st st' = trailing_stop st').
Proof.
  intros Hp H.
  destruct (stop_after_update _ _ _ _ _ _ Hp H) as [E Hkeep].
  split; [rewrite E; apply update_trailing_tightened|]. split.
  - intros t Ht. rewrite E, Ht.
    destruct (update_trailing_accepts (pos_direction p) t (close r)
                (atr_at atr_series (idx r))) as [|(n & _ & En & Hn)]; eauto.
  - intro Hnone. split; [exact (Hkeep Hnone)|].
    unfold stop_after. unfold recorded_exit in Hnone.
    destruct (appended st st') as [|[c|e] l]; [reflexivity|discriminate|reflexivity].
Qed.

Lemma tightened_trans d a b c :
  tightened d a b -> tightened d b c -> tightened d a c.
Proof.
  destruct a as [x|], b as [y|], c as [z|], d; simpl; try tauto;
    intros H1 H2; eapply Qle_trans; eassumption.
Qed.

Lemma tightened_refl d a : tightened d a a.
Proof. destruct a, d; simpl; trivial; apply Qle_refl. Qed.

Lemma states_from_head self atr_series signals st states :
  states_from self atr_series st signals = Ok states ->
  exists later, states = st :: later.
Proof.
  destruct signals as [|r rest]; simpl; intro H.
  - injection H as <-. eauto.
  - apply bind_Ok in H as (st1 & _ & H). apply bind_Ok in H as (later & _ & H).
    injection H as <-. eauto.
Qed.

(** Consecutive states of a run are one bar apart. *)
Lemma states_from_step self atr_series signals :
  forall st states k s s',
    states_from self atr_series st signals = Ok states ->
    nth_error states k = Some s -> nth_error states (S k) = Some s' ->
    exists r, sim_step self atr_series s r = Ok s'.
Proof.
  induction signals as [|r rest IH]; simpl; intros st states k s s' H Hs Hs'.
  - injection H as <-. destruct k; discriminate.
  - apply bind_Ok in H as (st1 & H1 & H). apply bind_Ok in H as (later & Hl & H).
    injection H as <-. destruct k as [|k].
    + simpl in Hs, Hs'. injection Hs as <-.
      apply states_from_head in Hl as (tl & ->). simpl in Hs'. injection Hs' as <-.
      eauto.
    + simpl in Hs, Hs'. eauto.
Qed.

(** C2.  In every run, over any stretch of bars during which a position
    stays open, the trailing stop only tightens: from the state after any
    bar to the state after any later bar, with no exit recorded in between,
    the position is the same and the trailing stop is not lower for a long
    position, not higher for a short one.  On each bar that starts with the
    position open, the stop the bar leaves (on the position or in the close
    record) is the old one or a candidate that is strictly tighter. *)
Theorem trailing_stop_monotone :
  forall self atr_series st signals states,
    states_from self atr_series st signals = Ok states ->
    (forall i j s s' p,
        (i <= j)%nat ->
        nth_error states i = Some s -> nth_error states j = Some s' ->
        cur_position s = Some p ->
        held states i j ->
        cur_position s' = Some p /\
        tightened (pos_direction p) (trailing_stop s) (trailing_stop s')) /\
    (forall k s s' p,
        nth_error states k = Some s -> nth_error states (S k) = Some s' ->
        cur_position s = Some p ->
        tightened (pos_direction p) (trailing_stop s) (stop_after s s') /\
        (forall t, trailing_stop s = Some t ->
           stop_after s s' = Some t \/
           exists n, stop_after s s' = Some n /\ tighter (pos_direction p) n t)).
Proof.
  intros self atr_series st signals states Hrun. split.
  - intros i j s s' p Hij Hs. revert s'.
    induction Hij as [|j Hij IH]; intros s' Hs' Hp Hheld.
    + assert (s' = s) by congruence. subst s'. split; [exact Hp|apply tightened_refl].
    + assert (Hj : exists sj, nth_error states j = Some sj).
      { destruct (nth_error states j) as [sj|] eqn:E; [eauto|].
        apply nth_error_None in E.
        assert (nth_error states (S j) = None) by (apply nth_error_None; lia).
        congruence. }
      destruct Hj as (sj & Hsj).
      destruct (IH sj Hsj Hp) as [Hpj Htj].
      { intros k a b Hk. apply Hheld. lia. }
      destruct (states_from_step _ _ _ _ _ _ _ _ Hrun Hsj Hs') as (r & Hstep).
      destruct (trailing_stop_step _ _ _ _ _ _ Hpj Hstep) as (Ht & _ & Hkeep).
      destruct Hkeep as [Hp' E]; [apply (Hheld j); [lia|assumption..]|].
      split; [exact Hp'|]. rewrite E in Ht. exact (tightened_trans _ _ _ _ Htj Ht).
  - intros k s s' p Hs Hs' Hp.
    destruct (states_from_step _ _ _ _ _ _ _ _ Hrun Hs Hs') as (r & Hstep).
    destruct (trailing_stop_step _ _ _ _ _ _ Hp Hstep) as (Ht & Hacc & _).
    split; assumption.
Qed.

Lemma trailing_stop_monotone_witness :
  states_from default_backtester (atr_const 5) (initial_state [] []) scenario_A
    = Ok scenario_A_states /\
  cur_position first_bar = Some scenario_A_position /\
  held scenario_A_states 1 2 /\
  trailing_stop first_bar = Some (19900002 # 10000) /\
  trailing_stop after_rise = Some 2000 /\
  cur_position after_rise = Some scenario_A_position /\
  tightened Long (trailing_stop first_bar) (trailing_stop after_rise) /\
  (stop_after first_bar after_rise = Some (19900002 # 10000) \/
   exists n, stop_after first_bar after_rise = Some n /\ tighter Long n (19900002 # 10000)).
Proof.
  assert (Hrun : states_from default_backtester (atr_const 5) (initial_state [] [])
                   scenario_A = Ok scenario_A_states) by (vm_compute; reflexivity).
  assert (Hp : cur_position first_bar = Some scenario_A_position)
    by (vm_compute; reflexivity).
  assert (Hheld : held scenario_A_states 1 2).
  { intros k s s' Hk Hs Hs'. assert (k = 1%nat) by lia. subst k.
    apply Some_eq in Hs, Hs'. subst s s'. vm_compute; reflexivity. }
  assert (Hts : trailing_stop first_bar = Some (19900002 # 10000))
    by (vm_compute; reflexivity).
  destruct (trailing_stop_monotone default_backtester (atr_const 5) (initial_state [] [])
              scenario_A scenario_A_states Hrun) as (Hchain & Hbar).
  destruct (Hchain 1%nat 2%nat first_bar after_rise scenario_A_position
              (le_S _ _ (le_n 1)) eq_refl eq_refl Hp Hheld) as (Hp' & Hmono).
  destruct (Hbar 1%nat first_bar after_rise scenario_A_position eq_refl eq_refl Hp)
    as (_ & Hacc).
  split; [exact Hrun|]. split; [exact Hp|]. split; [exact Hheld|].
  split; [exact Hts|]. split; [vm_compute; reflexivity|]. split; [exact Hp'|].
  split; [exact Hmono|]. exact (Hacc _ Hts).
Defined.

(** ** Balance *)

Lemma exists_last_or_nil {A : Type} (l : list A) :
  l = [] \/ exists init x, l = init ++ [x].
Proof.
  destruct l as [|a l]; [now left|right].
  destruct (exists_last (l := a :: l)) as (init & x & E); [discriminate|eauto].
Qed.

Lemma realized_pnl_app ts ts' :
  realized_pnl (ts ++ ts') == realized_pnl ts + realized_pnl ts'.
Proof.
  induction ts as [|[c|e] ts IH]; simpl.
  - now rewrite Qplus_0_l.
  - rewrite IH. apply Qplus_assoc.
  - exact IH.
Qed.

(** Opening a position leaves the balance as it is. *)
Lemma open_position_balance self d m r atr m' :
  open_position self d m r atr = Ok m' -> m_balance m' = m_balance m.
Proof. intro H. apply open_position_Ok in H as (lots & _ & ->). reflexivity. Qed.

(** One bar: the balance moves by the PnL of the close record the bar
    appends, if any; a close record appended last carries the new balance. *)
Lemma sim_step_balance self atr_series st r st' :
  sim_step self atr_series st r = Ok st' ->
  exists new,
    trades st' = trades st ++ new /\
    balance st' == balance st + realized_pnl new /\
    (forall earlier c, new = earlier ++ [Closed c] -> ct_balance c == balance st').
Proof.
  intro H. step_cases H.
  - exists []. rewrite app_nil_r. repeat split; [simpl; lra|].
    intros earlier c E. now destruct earlier.
  - eexists. repeat split; [simpl; lra|].
    intros earlier c E. apply (app_inj_tail []) in E as [_ [=]].
  - exists []. rewrite app_nil_r. repeat split; [simpl; lra|].
    intros earlier c E. now destruct earlier.
  - eexists. repeat split; [simpl; lra|].
    intros earlier c E. apply (app_inj_tail []) in E as [_ [= <-]]. reflexivity.
  - eexists. rewrite <- app_assoc. repeat split; [simpl; lra|].
    intros earlier c E. apply (app_inj_tail [_]) in E as [_ [=]].
Qed.

Lemma simulate_from_balance self atr_series signals :
  forall st st',
    simulate_from self atr_series st signals = Ok st' ->
    exists new,
      trades st' = trades st ++ new /\
      balance st' == balance st + realized_pnl new /\
      (forall earlier c, new = earlier ++ [Closed c] -> ct_balance c == balance st').
Proof.
  induction signals as [|r rest IH]; simpl; intros st st' H.
  - injection H as <-. exists []. rewrite app_nil_r. repeat split; [simpl; lra|].
    intros earlier c E. now destruct earlier.
  - apply bind_Ok in H as (st1 & H1 & H2).
    apply sim_step_balance in H1 as (new1 & E1 & B1 & L1).
    apply IH in H2 as (new2 & E2 & B2 & L2).
    exists (new1 ++ new2). split; [now rewrite E2, E1, app_assoc|]. split.
    + rewrite B2, B1, realized_pnl_app. lra.
    + intros earlier c E.
      destruct (exists_last_or_nil new2) as [-> | (init & t & ->)].
      * rewrite app_nil_r in E. rewrite B2. simpl. rewrite (L1 _ _ E). lra.
      * rewrite app_assoc in E. apply app_inj_tail in E as [_ ->].
        now apply (L2 init).
Qed.

(** C3.  At the end of a run the balance is the starting balance of 10000
    plus the sum of [pnl] over the records the run appended to the trade
    list; entry records carry no [pnl], so opening a position moves
    nothing.  When the last record is a close record, its [balance] is the
    final balance. *)
Theorem balance_conservation :
  forall self atr_series self_trades self_equity_curve signals st,
    _simulate_trading self atr_series self_trades self_equity_curve signals = Ok st ->
    exists new,
      trades st = self_trades ++ new /\
      balance st == starting_balance + realized_pnl new /\
      (forall earlier c, new = earlier ++ [Closed c] -> ct_balance c == balance st).
Proof.
  intros self atr_series ts ec signals st H.
  exact (simulate_from_balance self atr_series signals _ _ H).
Qed.

Lemma balance_conservation_witness :
  _simulate_trading default_backtester (atr_const 5) [] [] scenario_A = Ok scenario_A_final /\
  List.length (trades scenario_A_final) = 2%nat /\
  balance scenario_A_final == starting_balance + realized_pnl (trades scenario_A_final) /\
  balance scenario_A_final == - 990300.
Proof.
  assert (H : _simulate_trading default_backtester (atr_const 5) [] [] scenario_A
              = Ok scenario_A_final) by (vm_compute; reflexivity).
  destruct (balance_conservation default_backtester (atr_const 5) [] [] scenario_A
              scenario_A_final H) as (new & E & B & _).
  change ([] ++ new) with new in E. rewrite <- E in B.
  split; [exact H|]. split; [vm_compute; reflexivity|]. split; [exact B|].
  vm_compute; reflexivity.
Defined.

(** ** Drawdown halt *)

Lemma halted_iff self st :
  halted self st = true <->
  drawdown_triggered st = true \/
  max_drawdown self < current_drawdown (update_max_equity st) (equity st).
Proof.
  unfold halted, update_drawdown_triggered.
  destruct (drawdown_triggered st); simpl.
  - rewrite andb_false_r. tauto.
  - rewrite andb_true_r.
    destruct (Qgtb (current_drawdown (update_max_equity st) (equity st)) (max_drawdown self))
      eqn:E.
    + apply Qgtb_lt in E. tauto.
    + apply Qgtb_le in E. split; [discriminate|].
      intros [|Hlt]; [discriminate|]. exfalso. exact (Qlt_not_le _ _ Hlt E).
Qed.

Lemma halted_sticky self st :
  drawdown_triggered st = true -> halted self st = true.
Proof. intro H. apply halted_iff. now left. Qed.

(** A halted bar opens nothing: it leaves trades and position as they are,
    or closes the open position. *)
Lemma halted_step self atr_series st r st' :
  halted self st = true ->
  sim_step self atr_series st r = Ok st' ->
  drawdown_triggered st' = true /\
  (trades st' = trades st /\ cur_position st' = cur_position st /\
   (forall p, cur_position st = Some p ->
      close_reason p
        (update_trailing (pos_direction p) (trailing_stop st) (close r)
           (atr_at atr_series (idx r))) (close r) r = Ok None)
   \/ exists p w,
        let ts := update_trailing (pos_direction p) (trailing_stop st) (close r)
                    (atr_at atr_series (idx r)) in
        let pnl := _calculate_pnl self p (close r) in
        cur_position st = Some p /\
        close_reason p ts (close r) r = Ok (Some w) /\
        trades st' = trades st ++
          [Closed (close_record p (idx r) (close r) ts pnl (balance st + pnl) w)] /\
        cur_position st' = None).
Proof.
  intros Hh H. step_cases H; try congruence; (split; [exact Hh|]).
  - left. repeat split; [congruence|]. intros q Hq. congruence.
  - left. repeat split; [congruence|]. intros q Hq. congruence.
  - right. exists p, w. simpl. auto.
Qed.

Lemma halted_run self atr_series signals :
  forall st st',
    drawdown_triggered st = true ->
    simulate_from self atr_series st signals = Ok st' ->
    drawdown_triggered st' = true /\
    (trades st' = trades st /\ cur_position st' = cur_position st
     \/ exists p i price ts pnl bal w,
          cur_position st = Some p /\
          trades st' = trades st ++ [Closed (close_record p i price ts pnl bal w)] /\
          cur_position st' = None).
Proof.
  induction signals as [|r rest IH]; simpl; intros st st' Hflag H.
  - injection H as <-. auto.
  - apply bind_Ok in H as (st1 & H1 & H2).
    apply halted_step in H1 as (Hflag1 & H1); [|now apply halted_sticky].
    apply (IH _ _ Hflag1) in H2 as (Hflag' & H2). split; [exact Hflag'|].
    destruct H1 as [(T1 & P1 & _) | (p & w & P0 & _ & T1 & P1)].
    + rewrite T1, P1 in H2. exact H2.
    + right. destruct H2 as [(T2 & P2) | (q & _ & _ & _ & _ & _ & _ & P2 & _)];
        [|congruence].
      do 7 eexists. split; [exact P0|]. split; [rewrite T2; exact T1|congruence].
Qed.

(** C4.  Once the flag is set, or the drawdown from the running peak
    exceeds [max_drawdown] at the start of a bar, the flag is set at the end
    of the run however many bars follow, and from that bar on the run
    appends no entry record: either it appends nothing and the position is
    as it was, or it appends the one close record of the position that was
    open, and ends flat.  An exit condition met on that bar still closes the
    position, with its usual record. *)
Theorem sticky_drawdown_halt :
  forall self atr_series st r rest st',
    drawdown_triggered st = true \/
    max_drawdown self < current_drawdown (update_max_equity st) (equity st) ->
    simulate_from self atr_series st (r :: rest) = Ok st' ->
    drawdown_triggered st' = true /\
    (exists new,
        trades st' = trades st ++ new /\
        Forall (fun t => is_entry t = false) new /\
        (new = [] /\ cur_position st' = cur_position st
         \/ exists p i price ts pnl bal w,
              cur_position st = Some p /\
              new = [Closed (close_record p i price ts pnl bal w)] /\
              cur_position st' = None)) /\
    (forall p w,
        let ts := update_trailing (pos_direction p) (trailing_stop st) (close r)
                    (atr_at atr_series (idx r)) in
        let pnl := _calculate_pnl self p (close r) in
        cur_position st = Some p ->
        close_reason p ts (close r) r = Ok (Some w) ->
        cur_position st' = None /\
        trades st' = trades st ++
          [Closed (close_record p (idx r) (close r) ts pnl (balance st + pnl) w)]).
Proof.
  intros self atr_series st r rest st' Hh H. apply halted_iff in Hh.
  simpl in H. apply bind_Ok in H as (st1 & H1 & H2).
  apply (halted_step _ _ _ _ _ Hh) in H1 as (Hflag1 & H1).
  apply (halted_run _ _ _ _ _ Hflag1) in H2 as (Hflag' & H2).
  split; [exact Hflag'|].
  destruct H1 as [(T1 & P1 & N1) | (p & w & P0 & W0 & T1 & P1)].
  - split.
    + rewrite T1, P1 in H2.
      destruct H2 as [(T2 & P2) | (q & i & price & ts & pnl & bal & w & P2 & T2 & P2')].
      * exists []. rewrite app_nil_r. repeat split; auto.
      * eexists. split; [exact T2|]. split; [repeat constructor|].
        right. do 7 eexists. eauto.
    + intros q w ts pnl Hq Hw. subst ts. rewrite (N1 _ Hq) in Hw. discriminate.
  - assert (Hend : cur_position st' = None /\ trades st' = trades st1).
    { destruct H2 as [(T2 & P2) | (q & _ & _ & _ & _ & _ & _ & P2 & _)]; [|congruence].
      split; congruence. }
    destruct Hend as [Pend Tend]. split.
    + eexists. split; [rewrite Tend; exact T1|]. split; [repeat constructor|].
      right. do 7 eexists. eauto.
    + intros q w' ts pnl Hq Hw. subst ts pnl.
      assert (q = p) by congruence. subst q.
      assert (w' = w) by congruence. subst w'.
      split; [exact Pend|]. rewrite Tend. exact T1.
Qed.

Lemma sticky_drawdown_halt_witness :
  max_drawdown default_backtester
    < current_drawdown (update_max_equity under_water) (equity under_water) /\
  simulate_from default_backtester (atr_const 5) under_water [bar 2 1985 1; bar 3 1985 1]
    = Ok falling_market_final /\
  cur_position under_water = Some scenario_A_position /\
  drawdown_triggered under_water = false /\
  drawdown_triggered falling_market_final = true /\
  cur_position falling_market_final = None /\
  exists c,
    trades falling_market_final = trades under_water ++ [Closed c] /\
    ct_exit_reason c = trailing_stop_hit /\ ct_exit_time c = 2%Z.
Proof.
  assert (Hdd : max_drawdown default_backtester
                < current_drawdown (update_max_equity under_water) (equity under_water))
    by (vm_compute; reflexivity).
  assert (Hrun : simulate_from default_backtester (atr_const 5) under_water
                   [bar 2 1985 1; bar 3 1985 1] = Ok falling_market_final)
    by (vm_compute; reflexivity).
  assert (Hp : cur_position under_water = Some scenario_A_position)
    by (vm_compute; reflexivity).
  destruct (sticky_drawdown_halt default_backtester (atr_const 5) under_water
              (bar 2 1985 1) [bar 3 1985 1] falling_market_final (or_intror Hdd) Hrun)
    as (Hflag & _ & Hclose).
  destruct (Hclose scenario_A_position trailing_stop_hit Hp) as (Hflat & Htrades);
    [vm_compute; reflexivity|].
  split; [exact Hdd|]. split; [exact Hrun|]. split; [exact Hp|].
  split; [vm_compute; reflexivity|]. split; [exact Hflag|]. split; [exact Hflat|].
  eexists. split; [exact Htrades|]. split; reflexivity.
Defined.

(** ** Performance evaluation *)

(** C8.  On an empty trade list [_calculate_performance] returns a dict
    whose [num_trades], [win_rate], [sharpe_ratio], [total_return],
    [avg_win], [avg_loss] and [max_drawdown] are 0, and which has no
    [final_balance] key: the Summary is not fully populated. *)
Theorem empty_performance_lacks_final_balance :
  forall sharpe_of self_equity_curve,
    exists d,
      _calculate_performance sharpe_of [] self_equity_curve = Ok d /\
      perf_get "num_trades" d = Some (PNum 0) /\
      perf_get "win_rate" d = Some (PNum 0) /\
      perf_get "sharpe_ratio" d = Some (PNum 0) /\
      perf_get "total_return" d = Some (PNum 0) /\
      perf_get "avg_win" d = Some (PNum 0) /\
      perf_get "avg_loss" d = Some (PNum 0) /\
      perf_get "max_drawdown" d = Some (PNum 0) /\
      perf_get "final_balance" d = None /\
      fully_populated d = false.
Proof.
  intros. eexists. split; [reflexivity|]. repeat split.
Qed.

Lemma select_by_pnl_entry test ts e :
  In (Entry e) ts -> select_by_pnl test ts = Raise (KeyError "pnl").
Proof.
  induction ts as [|[c|e'] ts IH]; simpl; intro H.
  - contradiction.
  - destruct H as [H|H]; [discriminate|]. now rewrite (IH H).
  - reflexivity.
Qed.

(** A run that has appended anything has appended an entry record: a
    position is opened before it is closed. *)
Lemma run_logs_entry self atr_series signals st :
  _simulate_trading self atr_series [] [] signals = Ok st ->
  (cur_position st = None /\ trades st = []) \/ exists e, In (Entry e) (trades st).
Proof.
  apply (simulate_from_invariant self atr_series
           (fun s => (cur_position s = None /\ trades s = []) \/
                     exists e, In (Entry e) (trades s))); [|now left].
  clear. intros st r st' Inv H.
  step_cases H; destruct Inv as [[Hc Ht] | (e & He)]; try congruence; eauto;
    right; eexists; rewrite ?in_app_iff; simpl; eauto.
Qed.

(** C9.  On every non-empty trade list that a run of the simulation loop on
    a fresh backtester leaves behind, [_calculate_performance] raises
    [KeyError('pnl')]: the list holds an entry record, which has no [pnl]. *)
Theorem performance_raises_on_run_trades :
  forall sharpe_of self atr_series signals st,
    _simulate_trading self atr_series [] [] signals = Ok st ->
    trades st <> [] ->
    _calculate_performance sharpe_of (trades st) (equity_curve st)
    = Raise (KeyError "pnl").
Proof.
  intros sharpe_of self atr_series signals st H Hne.
  apply run_logs_entry in H as [[_ Ht] | (e & He)]; [contradiction|].
  unfold _calculate_performance. destruct (trades st) as [|t ts] eqn:E; [contradiction|].
  now rewrite (select_by_pnl_entry _ _ _ He).
Qed.

Lemma performance_raises_on_run_trades_witness :
  _simulate_trading default_backtester (atr_const 5) [] [] scenario_A = Ok scenario_A_final /\
  trades scenario_A_final <> [] /\
  _calculate_performance (fun _ => 0) (trades scenario_A_final)
    (equity_curve scenario_A_final) = Raise (KeyError "pnl").
Proof.
  assert (H : _simulate_trading default_backtester (atr_const 5) [] [] scenario_A
              = Ok scenario_A_final) by (vm_compute; reflexivity).
  assert (Hne : trades scenario_A_final <> []) by (vm_compute; discriminate).
  split; [exact H|]. split; [exact Hne|].
  exact (performance_raises_on_run_trades (fun _ => 0) default_backtester (atr_const 5)
           scenario_A scenario_A_final H Hne).
Defined.

(** ** Circuit breaker *)

Lemma record_trade_result_losses self sym pnl win_loss now :
  RiskManager.consecutive_losses (RiskManager.record_trade_result self sym pnl win_loss now)
  = (if String.eqb win_loss "loss"
     then RiskManager.consecutive_losses self + 1
     else 0)%Z /\
  RiskManager.circuit_breaker_losses (RiskManager.record_trade_result self sym pnl win_loss now)
  = RiskManager.circuit_breaker_losses self /\
  RiskManager.circuit_breaker_triggered (RiskManager.record_trade_result self sym pnl win_loss now)
  = RiskManager.circuit_breaker_triggered self.
Proof.
  unfold RiskManager.record_trade_result.
  destruct (String.eqb win_loss "loss"); repeat split.
Qed.

Lemma record_all_losses outcomes :
  forall self,
    forallb RiskManager.is_loss outcomes = true ->
    RiskManager.consecutive_losses (RiskManager.record_all self outcomes)
    = (RiskManager.consecutive_losses self + Z.of_nat (List.length outcomes))%Z /\
    RiskManager.circuit_breaker_losses (RiskManager.record_all self outcomes)
    = RiskManager.circuit_breaker_losses self.
Proof.
  induction outcomes as [|o rest IH]; intros self Hall.
  - simpl. split; [lia|reflexivity].
  - simpl in Hall. apply andb_true_iff in Hall as [Ho Hrest].
    change (RiskManager.record_all self (o :: rest))
      with (RiskManager.record_all
              (RiskManager.record_trade_result self (RiskManager.o_symbol o)
                 (RiskManager.o_pnl o) (RiskManager.o_win_loss o) (RiskManager.o_now o))
              rest).
    destruct (IH (RiskManager.record_trade_result self (RiskManager.o_symbol o)
                    (RiskManager.o_pnl o) (RiskManager.o_win_loss o) (RiskManager.o_now o))
                Hrest) as [-> ->].
    destruct (record_trade_result_losses self (RiskManager.o_symbol o) (RiskManager.o_pnl o)
                (RiskManager.o_win_loss o) (RiskManager.o_now o)) as (-> & -> & _).
    unfold RiskManager.is_loss in Ho. rewrite Ho.
    split; [|reflexivity]. change (List.length (o :: rest)) with (S (List.length rest)). lia.
Qed.

(** At or above the threshold [can_open_position] answers [False] for every
    symbol, before it looks at anything else, and sets the flag. *)
Lemma circuit_breaker_blocks self sym :
  (RiskManager.circuit_breaker_losses self <= RiskManager.consecutive_losses self)%Z ->
  exists self',
    RiskManager.can_open_position self sym = Ok (false, self') /\
    RiskManager.circuit_breaker_triggered self' = true /\
    RiskManager.consecutive_losses self' = RiskManager.consecutive_losses self.
Proof.
  intro H. unfold RiskManager.can_open_position, RiskManager.check_circuit_breaker.
  assert (E : (RiskManager.consecutive_losses self >=? RiskManager.circuit_breaker_losses self)%Z
              = true) by (apply Z.geb_le; exact H).
  rewrite E. simpl. eexists. repeat split.
Qed.

(** The part of the circuit-breaker property the code does have: after
    [circuit_breaker_losses] losing trades in a row, and however many more
    losing trades after them, [can_open_position] is false for every
    symbol. *)
Lemma circuit_breaker_trips self outcomes sym :
  (0 <= RiskManager.consecutive_losses self)%Z ->
  forallb RiskManager.is_loss outcomes = true ->
  (RiskManager.circuit_breaker_losses self <= Z.of_nat (List.length outcomes))%Z ->
  exists self',
    RiskManager.can_open_position (RiskManager.record_all self outcomes) sym
    = Ok (false, self').
Proof.
  intros H0 Hall Hn.
  destruct (record_all_losses outcomes self Hall) as [Hl Hc].
  destruct (circuit_breaker_blocks (RiskManager.record_all self outcomes) sym)
    as (self' & E & _); [lia|eauto].
Qed.

(** [reset_session] clears the count and the flag. *)
Lemma reset_session_clears self :
  RiskManager.consecutive_losses (RiskManager.reset_session self) = 0%Z /\
  RiskManager.circuit_breaker_triggered (RiskManager.reset_session self) = false.
Proof. split; reflexivity. Qed.

(** C5.  With the default manager, five losing trades block
    [can_open_position] and set [circuit_breaker_triggered]; one winning
    trade recorded after that, with no [reset_session], makes
    [can_open_position] answer [True] again, the flag still set. *)
Theorem circuit_breaker_released_by_win :
  let tripped := RiskManager.record_all RiskManager.default five_losses in
  exists blocked,
    RiskManager.can_open_position tripped "XAUUSD" = Ok (false, blocked) /\
    RiskManager.circuit_breaker_triggered blocked = true /\
    let after_win := RiskManager.record_trade_result blocked "XAUUSD" 10 "win" 0 in
    exists reopened,
      RiskManager.can_open_position after_win "XAUUSD" = Ok (true, reopened) /\
      RiskManager.circuit_breaker_triggered reopened = true.
Proof.
  cbv zeta. eexists. split; [vm_compute; reflexivity|]. split; [reflexivity|].
  eexists. split; [vm_compute; reflexivity|reflexivity].
Qed.

(** ** Performance of a list of close records *)

Lemma select_by_pnl_closed test cs :
  select_by_pnl test (map Closed cs)
  = Ok (map Closed (filter (fun c => test (ct_pnl c)) cs)).
Proof.
  induction cs as [|c cs IH]; simpl; [reflexivity|].
  rewrite IH. simpl. now destruct (test (ct_pnl c)).
Qed.

Lemma pnls_closed cs : pnls (map Closed cs) = Ok (map ct_pnl cs).
Proof.
  induction cs as [|c cs IH]; simpl; [reflexivity|]. now rewrite IH.
Qed.

Lemma mean_pnl_closed cs :
  mean_pnl_or_zero (map Closed cs)
  = Ok match cs with
       | [] => 0
       | _ :: _ => np_mean (map ct_pnl cs)
       end.
Proof.
  destruct cs as [|c cs]; [reflexivity|].
  unfold mean_pnl_or_zero. change (map Closed (c :: cs)) with (Closed c :: map Closed cs).
  change (Closed c :: map Closed cs) with (map Closed (c :: cs)).
  now rewrite pnls_closed.
Qed.

Lemma last_closed cs : forall c0, last (map Closed cs) (Closed c0) = Closed (last cs c0).
Proof.
  induction cs as [|c cs IH]; intro c0; [reflexivity|].
  destruct cs as [|c' cs]; [reflexivity|].
  change (last (map Closed (c :: c' :: cs)) (Closed c0))
    with (last (map Closed (c' :: cs)) (Closed c0)).
  rewrite IH. reflexivity.
Qed.

Lemma len_map {A B : Type} (f : A -> B) (l : list A) : len (map f l) = len l.
Proof. unfold len. now rewrite length_map. Qed.

Lemma len_cons_positive {A : Type} (a : A) (l : list A) : Qgtb (len (a :: l)) 0 = true.
Proof.
  apply Qgtb_lt. unfold len, Qlt. simpl. lia.
Qed.

(** What [_calculate_performance] reports on a trade list made of close
    records only, when it returns: the number of trades, the share of trades
    with a positive [pnl], zero averages over empty subsets, and the
    [balance] of the last record. *)
Lemma performance_of_closed_trades sharpe_of c0 cs self_equity_curve d :
  let all := c0 :: cs in
  let winners := filter (fun c => Qgtb (ct_pnl c) 0) all in
  let losers := filter (fun c => Qleb (ct_pnl c) 0) all in
  _calculate_performance sharpe_of (map Closed all) self_equity_curve = Ok d ->
  perf_get "num_trades" d = Some (PNum (len all)) /\
  perf_get "win_rate" d = Some (PNum (len winners / len all)) /\
  (winners = [] -> perf_get "avg_win" d = Some (PNum 0)) /\
  (losers = [] -> perf_get "avg_loss" d = Some (PNum 0)) /\
  perf_get "final_balance" d = Some (PNum (ct_balance (last all c0))).
Proof.
  intros all winners losers H. unfold _calculate_performance in H.
  change (map Closed all) with (Closed c0 :: map Closed cs) in H. cbv iota in H.
  change (Closed c0 :: map Closed cs) with (map Closed all) in H.
  rewrite !select_by_pnl_closed in H. cbn [bind] in H.
  fold winners losers in H. rewrite !mean_pnl_closed, last_closed in H.
  cbn [bind getitem balance_of] in H. rewrite !len_map in H.
  rewrite (len_cons_positive c0 cs : Qgtb (len all) 0 = true) in H.
  apply bind_Ok in H as (peak & _ & H). apply bind_Ok in H as (max_dd & _ & H).
  injection H as <-. repeat split.
  - intros ->. reflexivity.
  - intros ->. reflexivity.
Qed.

(** * Further properties of the simulation loop *)

(** ** The trade log *)

Lemma well_paired_entry waiting ts e :
  well_paired waiting ts None -> well_paired waiting (ts ++ [Entry e]) (Some e).
Proof.
  revert waiting. induction ts as [|[c|e'] ts IH]; simpl; intros waiting H.
  - auto.
  - destruct H as [Hc H]. auto.
  - destruct H as [Hn H]. auto.
Qed.

Lemma well_paired_close waiting ts e c :
  well_paired waiting ts (Some e) -> closes c e ->
  well_paired waiting (ts ++ [Closed c]) None.
Proof.
  revert waiting. induction ts as [|[c'|e'] ts IH]; simpl; intros waiting H Hc.
  - eauto.
  - destruct H as [Hc' H]. auto.
  - destruct H as [Hn H]. auto.
Qed.

Lemma close_record_closes p i price ts pnl bal why e :
  logged e p -> closes (close_record p i price ts pnl bal why) e.
Proof.
  unfold logged, closes. simpl. intuition congruence.
Qed.

Lemma new_entry_logged self d r atr lots :
  logged (new_entry_log self d r atr lots) (new_position self d r atr lots).
Proof. repeat split. Qed.

(** One bar keeps the log well paired and in step with the position. *)
Lemma sim_step_paired self atr_series base st r st' :
  (exists new final,
      trades st = base ++ new /\ well_paired None new final /\
      match cur_position st with
      | Some p => exists e, final = Some e /\ logged e p
      | None => final = None
      end) ->
  sim_step self atr_series st r = Ok st' ->
  exists new final,
    trades st' = base ++ new /\ well_paired None new final /\
    match cur_position st' with
    | Some p => exists e, final = Some e /\ logged e p
    | None => final = None
    end.
Proof.
  intros (new & final & E & W & M) H.
  step_cases H; rewrite ?Hflat, ?Hpos in M.
  - exists new, final. auto.
  - subst final. eexists. eexists. rewrite E, <- app_assoc.
    split; [reflexivity|]. split; [apply well_paired_entry; exact W|].
    eexists. split; [reflexivity|apply new_entry_logged].
  - exists new, final. auto.
  - destruct M as (e & -> & L). eexists. exists None. rewrite E, <- app_assoc.
    split; [reflexivity|]. split; [|reflexivity].
    eapply well_paired_close; [exact W|]. apply close_record_closes. exact L.
  - destruct M as (e & -> & L). eexists. eexists. rewrite E, <- !app_assoc.
    split; [reflexivity|]. split.
    + rewrite app_assoc. apply well_paired_entry.
      eapply well_paired_close; [exact W|]. apply close_record_closes. exact L.
    + eexists. split; [reflexivity|apply new_entry_logged].
Qed.

(** X1.  The records a run appends to the trade list alternate, starting
    with an entry record: an entry record comes only when no position is
    open, a close record only after an entry record, whose entry time,
    symbol, direction, entry price, lot size, stop loss and take profit it
    repeats.  At the end a position is open exactly when the last entry
    record has no close record yet, and it is the position that record
    describes. *)
Theorem trade_log_well_paired :
  forall self atr_series self_trades self_equity_curve signals st,
    _simulate_trading self atr_series self_trades self_equity_curve signals = Ok st ->
    exists new final,
      trades st = self_trades ++ new /\
      well_paired None new final /\
      match cur_position st with
      | Some p => exists e, final = Some e /\ logged e p
      | None => final = None
      end.
Proof.
  intros self atr_series ts ec signals st H.
  refine (simulate_from_invariant self atr_series _ (fun s r s' => sim_step_paired
            self atr_series ts s r s') signals _ _ _ H).
  exists [], None. simpl. rewrite app_nil_r. auto.
Qed.

Lemma trade_log_well_paired_witness :
  _simulate_trading default_backtester (atr_const 5) [] [] scenario_A = Ok scenario_A_final /\
  exists e c,
    trades scenario_A_final = [Entry e; Closed c] /\ closes c e /\
    cur_position scenario_A_final = None.
Proof.
  assert (H : _simulate_trading default_backtester (atr_const 5) [] [] scenario_A
              = Ok scenario_A_final) by (vm_compute; reflexivity).
  split; [exact H|].
  destruct (trade_log_well_paired default_backtester (atr_const 5) [] [] scenario_A
              scenario_A_final H) as (new & final & E & W & M).
  change ([] ++ new) with new in E. subst new.
  assert (Hshape : exists e c, trades scenario_A_final = [Entry e; Closed c])
    by (eexists; eexists; vm_compute; reflexivity).
  destruct Hshape as (e & c & Hshape). rewrite Hshape in W.
  destruct W as (_ & (e' & He' & Hc) & _). apply Some_eq in He'. subst e'.
  exists e, c. split; [exact Hshape|]. split; [exact Hc|]. vm_compute; reflexivity.
Defined.

(** ** The equity curve *)

Lemma sim_step_curve self atr_series st r st' :
  (cur_position st = None -> equity st = balance st) ->
  sim_step self atr_series st r = Ok st' ->
  (exists pt,
      equity_curve st' = equity_curve st ++ [pt] /\
      ep_time pt = idx r /\ ep_balance pt = balance st' /\ ep_equity pt = equity st' /\
      (ep_position pt = false <-> cur_position st' = None)) /\
  (cur_position st' = None -> equity st' = balance st').
Proof.
  intros Hflat_eq H.
  step_cases H;
    (split; [eexists; split; [reflexivity|]; repeat split; discriminate || trivial|]);
    try discriminate; auto.
Qed.

Lemma simulate_from_curve self atr_series signals :
  forall st st',
    (cur_position st = None -> equity st = balance st) ->
    simulate_from self atr_series st signals = Ok st' ->
    (exists points,
        equity_curve st' = equity_curve st ++ points /\
        map ep_time points = map idx signals /\
        Forall (fun pt => ep_position pt = false -> ep_equity pt = ep_balance pt) points) /\
    (cur_position st' = None -> equity st' = balance st').
Proof.
  induction signals as [|r rest IH]; simpl; intros st st' Hflat H.
  - injection H as <-. split; [|exact Hflat].
    exists []. rewrite app_nil_r. repeat split. constructor.
  - apply bind_Ok in H as (st1 & H1 & H2).
    apply (sim_step_curve _ _ _ _ _ Hflat) in H1
      as ((pt & E1 & T1 & B1 & Q1 & P1) & Hflat1).
    apply (IH _ _ Hflat1) in H2 as ((points & E2 & T2 & F2) & Hflat').
    split; [|exact Hflat'].
    exists (pt :: points). rewrite E2, E1, <- app_assoc. split; [reflexivity|].
    split; [simpl; now rewrite T1, T2|].
    constructor; [|exact F2].
    intro Hp. rewrite Q1, B1. apply Hflat1. now apply P1.
Qed.

(** X2.  A run appends one equity point per bar, in the order of the bars
    and labelled with the bar's index; a point taken while no position is
    open has its equity equal to its balance, and a run that ends flat ends
    with equity equal to balance. *)
Theorem equity_curve_per_bar :
  forall self atr_series self_trades self_equity_curve signals st,
    _simulate_trading self atr_series self_trades self_equity_curve signals = Ok st ->
    (exists points,
        equity_curve st = self_equity_curve ++ points /\
        map ep_time points = map idx signals /\
        Forall (fun pt => ep_position pt = false -> ep_equity pt = ep_balance pt) points) /\
    (cur_position st = None -> equity st = balance st).
Proof.
  intros self atr_series ts ec signals st H.
  exact (simulate_from_curve self atr_series signals (initial_state ts ec) st
           (fun _ => eq_refl) H).
Qed.

Lemma equity_curve_per_bar_witness :
  _simulate_trading default_backtester (atr_const 5) [] [] scenario_A = Ok scenario_A_final /\
  map ep_time (equity_curve scenario_A_final) = [0; 1; 2]%Z /\
  equity scenario_A_final = balance scenario_A_final.
Proof.
  assert (H : _simulate_trading default_backtester (atr_const 5) [] [] scenario_A
              = Ok scenario_A_final) by (vm_compute; reflexivity).
  destruct (equity_curve_per_bar default_backtester (atr_const 5) [] [] scenario_A
              scenario_A_final H) as ((points & E & T & _) & Hflat).
  change ([] ++ points) with points in E. rewrite <- E in T.
  split; [exact H|]. split; [exact T|]. apply Hflat. vm_compute; reflexivity.
Defined.

(** ** Stop loss under a trailing stop *)

Lemma covered_tightened p ts ts' :
  covered p ts -> tightened (pos_direction p) ts ts' -> covered p ts'.
Proof.
  unfold covered, tightened. destruct ts as [t|]; [|contradiction].
  destruct ts' as [t'|]; [|contradiction].
  destruct (pos_direction p); intros H1 H2; eapply Qle_trans; eassumption.
Qed.

Lemma covered_not_stop_loss p ts current_price r why :
  covered p ts ->
  close_reason p ts current_price r = Ok (Some why) -> why <> stop_loss_hit.
Proof.
  unfold covered, close_reason, trailing_hit, stop_hit.
  destruct ts as [t|]; [|contradiction]. intro Hc.
  destruct (pos_direction p) eqn:D.
  - destruct (Qleb current_price t) eqn:E1; [intro; congruence|].
    destruct (Qleb current_price (stop_loss p)) eqn:E2.
    + apply Qleb_le in E2. apply Qleb_gt in E1. exfalso.
      apply (Qlt_not_le _ _ E1). eapply Qle_trans; eassumption.
    + destruct (target_hit p current_price); [intro; congruence|].
      intro H. apply bind_Ok in H as (s & _ & H).
      destruct (s =? opposite Long)%Z; congruence.
  - destruct (Qgeb current_price t) eqn:E1; [intro; congruence|].
    destruct (Qgeb current_price (stop_loss p)) eqn:E2.
    + apply Qgeb_le in E2. apply Qleb_gt in E1. exfalso.
      apply (Qlt_not_le _ _ E1). eapply Qle_trans; eassumption.
    + destruct (target_hit p current_price); [intro; congruence|].
      intro H. apply bind_Ok in H as (s & _ & H).
      destruct (s =? opposite Short)%Z; congruence.
Qed.

Lemma new_position_covered self d r a lots :
  covered (new_position self d r (Some a) lots)
    (entry_trailing d (entry_price_of self d (close r)) (Some a)).
Proof.
  unfold covered, new_position, entry_trailing. simpl. destruct d; apply Qle_refl.
Qed.

Lemma sim_step_covered self atr_series st r st' :
  atr_series (idx r) <> None ->
  (forall p, cur_position st = Some p -> covered p (trailing_stop st)) ->
  sim_step self atr_series st r = Ok st' ->
  (exists new, trades st' = trades st ++ new /\
     forall c, In (Closed c) new -> ct_exit_reason c <> stop_loss_hit) /\
  (forall p, cur_position st' = Some p -> covered p (trailing_stop st')).
Proof.
  intros Hatr Hcov H. unfold atr_at in *.
  destruct (atr_series (idx r)) as [a|] eqn:Ea; [clear Hatr|contradiction].
  assert (Hatr : atr_at atr_series (idx r) = Some a) by exact Ea.
  step_cases H; rewrite ?Hatr in *.
  - split; [exists []; rewrite app_nil_r; split; [reflexivity|contradiction]|].
    intros q Hq. apply Hcov. congruence.
  - split; [eexists; split; [reflexivity|]; intros c [[=]|[]]|].
    intros q [= <-]. apply new_position_covered.
  - split; [exists []; rewrite app_nil_r; split; [reflexivity|contradiction]|].
    intros q [= <-]. eapply covered_tightened; [apply Hcov; exact Hpos|].
    apply update_trailing_tightened.
  - split; [|discriminate]. eexists. split; [reflexivity|].
    intros c [[= <-]|[]]. simpl.
    eapply covered_not_stop_loss; [|exact Hwhy].
    eapply covered_tightened; [apply Hcov; exact Hpos|]. apply update_trailing_tightened.
  - split.
    + eexists. rewrite <- app_assoc. split; [reflexivity|].
      intros c [[= <-]|[[=]|[]]]. simpl.
      eapply covered_not_stop_loss; [|exact Hwhy].
      eapply covered_tightened; [apply Hcov; exact Hpos|]. apply update_trailing_tightened.
    + intros q [= <-]. apply new_position_covered.
Qed.

Lemma simulate_from_covered self atr_series signals :
  forall st st',
    (forall r, In r signals -> atr_series (idx r) <> None) ->
    (forall p, cur_position st = Some p -> covered p (trailing_stop st)) ->
    simulate_from self atr_series st signals = Ok st' ->
    exists new, trades st' = trades st ++ new /\
      forall c, In (Closed c) new -> ct_exit_reason c <> stop_loss_hit.
Proof.
  induction signals as [|r rest IH]; simpl; intros st st' Hatr Hcov H.
  - injection H as <-. exists []. rewrite app_nil_r. split; [reflexivity|contradiction].
  - apply bind_Ok in H as (st1 & H1 & H2).
    apply sim_step_covered in H1 as ((new1 & E1 & N1) & Hcov1); auto.
    apply IH in H2 as (new2 & E2 & N2); auto.
    exists (new1 ++ new2). rewrite E2, E1, app_assoc. split; [reflexivity|].
    intros c Hc. apply in_app_or in Hc as [Hc|Hc]; auto.
Qed.

(** X3.  In a run whose ATR series has a value at every bar, no close
    record has the exit reason stop loss: [ATR_MULTIPLIER] equals
    [ATR_STOP_LOSS_MULTIPLIER], so the trailing stop starts on the stop loss
    and only tightens, and the trailing-stop test, which comes first,
    holds whenever the stop-loss test would. *)
Theorem stop_loss_exit_unreachable_with_atr :
  forall self atr_series self_trades self_equity_curve signals st,
    (forall r, In r signals -> atr_series (idx r) <> None) ->
    _simulate_trading self atr_series self_trades self_equity_curve signals = Ok st ->
    exists new,
      trades st = self_trades ++ new /\
      forall c, In (Closed c) new -> ct_exit_reason c <> stop_loss_hit.
Proof.
  intros self atr_series ts ec signals st Hatr H.
  apply (simulate_from_covered self atr_series signals (initial_state ts ec) st Hatr);
    [discriminate|exact H].
Qed.

Lemma stop_loss_exit_unreachable_with_atr_witness :
  (forall r, In r [bar 0 2000 1; bar 1 1900 0] -> atr_const 5 (idx r) <> None) /\
  exists st c,
    _simulate_trading default_backtester (atr_const 5) [] [] [bar 0 2000 1; bar 1 1900 0]
      = Ok st /\
    In (Closed c) (trades st) /\
    stop_hit scenario_A_position 1900 = true /\
    ct_exit_reason c = trailing_stop_hit /\ ct_exit_reason c <> stop_loss_hit.
Proof.
  assert (Hatr : forall r, In r [bar 0 2000 1; bar 1 1900 0] -> atr_const 5 (idx r) <> None)
    by (intros r _; discriminate).
  split; [exact Hatr|].
  pose (st := run_of (_simulate_trading default_backtester (atr_const 5) [] []
                        [bar 0 2000 1; bar 1 1900 0])).
  assert (H : _simulate_trading default_backtester (atr_const 5) [] []
                [bar 0 2000 1; bar 1 1900 0] = Ok st) by (vm_compute; reflexivity).
  assert (Hshape : exists e c, trades st = [Entry e; Closed c] /\
                               ct_exit_reason c = trailing_stop_hit)
    by (eexists; eexists; split; vm_compute; reflexivity).
  destruct Hshape as (e & c & Hshape & Hwhy).
  destruct (stop_loss_exit_unreachable_with_atr default_backtester (atr_const 5) [] []
              [bar 0 2000 1; bar 1 1900 0] st Hatr H) as (new & E & Hnot).
  change ([] ++ new) with new in E. subst new.
  assert (Hin : In (Closed c) (trades st)) by (rewrite Hshape; right; left; reflexivity).
  exists st, c. split; [exact H|]. split; [exact Hin|].
  split; [vm_compute; reflexivity|]. split; [exact Hwhy|exact (Hnot c Hin)].
Defined.

(** ** Exceptions of the loop *)

Lemma position_size_total self bal dist :
  ~ pip_value self == 0 -> exists lots, position_size self bal dist = Ok lots.
Proof.
  intro Hpip. unfold position_size. destruct (Qgtb dist 0) eqn:E; [|eauto].
  apply Qgtb_lt in E. eexists. apply py_div_nonzero.
  intro Hz. apply Qmult_integral in Hz as [Hz|Hz]; [|contradiction].
  rewrite Hz in E. discriminate.
Qed.

Lemma sim_step_total self atr_series st r :
  ~ pip_value self == 0 ->
  signal r <> None -> Signal r <> None ->
  exists st', sim_step self atr_series st r = Ok st'.
Proof.
  intros Hpip Hs HS.
  destruct (signal r) as [s|] eqn:Es; [|contradiction].
  destruct (Signal r) as [S|] eqn:ES; [|contradiction].
  unfold sim_step.
  assert (Hm : exists m, manage_position self st r (atr_at atr_series (idx r)) = Ok m).
  { unfold manage_position. destruct (cur_position st) as [p|]; [|eauto].
    rewrite (close_reason_total _ _ _ _ _ Es). cbn [bind].
    match goal with
    | |- context [first_satisfied ?l] => destruct (first_satisfied l); eauto
    end. }
  destruct Hm as (m & ->). simpl.
  assert (Hm' : exists m', handle_new_signals self (halted self st) m r
                             (atr_at atr_series (idx r)) = Ok m').
  { unfold handle_new_signals. destruct (negb (halted self st)); [|eauto].
    destruct (m_position m); [eauto|]. rewrite ES. simpl.
    unfold open_position.
    destruct (S =? 1)%Z.
    - destruct (position_size_total self (m_balance m)
                  (stop_distance self Long r (atr_at atr_series (idx r))) Hpip)
        as (lots & ->). simpl. eauto.
    - destruct (S =? -1)%Z; [|eauto].
      destruct (position_size_total self (m_balance m)
                  (stop_distance self Short r (atr_at atr_series (idx r))) Hpip)
        as (lots & ->). simpl. eauto. }
  destruct Hm' as (m' & Hm'). unfold halted in Hm'. rewrite Hm'. simpl. eauto.
Qed.

(** X4.  On a frame that has both the ['signal'] and the ['Signal'] column,
    and with a pip value that is not zero, the loop raises nothing: from
    any state it runs through all the bars. *)
Theorem simulation_completes :
  forall self atr_series signals st,
    ~ pip_value self == 0 ->
    (forall r, In r signals -> signal r <> None /\ Signal r <> None) ->
    exists st', simulate_from self atr_series st signals = Ok st'.
Proof.
  intros self atr_series signals. induction signals as [|r rest IH]; intros st Hpip Hcols.
  - simpl. eauto.
  - destruct (Hcols r (or_introl eq_refl)) as [Hs HS].
    destruct (sim_step_total self atr_series st r Hpip Hs HS) as (st1 & H1).
    destruct (IH st1 Hpip) as (st' & H'); [intros q Hq; apply Hcols; now right|].
    exists st'. simpl. rewrite H1. exact H'.
Qed.

Lemma simulation_completes_witness :
  ~ pip_value default_backtester == 0 /\
  (forall r, In r falling_market -> signal r <> None /\ Signal r <> None) /\
  exists st', simulate_from default_backtester (atr_const 5) (initial_state [] [])
                falling_market = Ok st'.
Proof.
  assert (Hpip : ~ pip_value default_backtester == 0) by discriminate.
  assert (Hcols : forall r, In r falling_market -> signal r <> None /\ Signal r <> None).
  { intros r Hr. unfold falling_market in Hr. simpl in Hr.
    destruct Hr as [<-|[<-|[<-|[<-|[]]]]]; split; discriminate. }
  split; [exact Hpip|]. split; [exact Hcols|].
  exact (simulation_completes default_backtester (atr_const 5) falling_market
           (initial_state [] []) Hpip Hcols).
Defined.

(** X5.  On a frame without a ['signal'] column, a bar that starts with a
    position open whose trailing stop, stop loss and take profit are all
    not hit raises [KeyError('signal')]: the opposite-signal test reads
    [row['signal']], the entry test [row['Signal']]. *)
Theorem missing_signal_column_raises :
  forall self atr_series st r p,
    cur_position st = Some p ->
    signal r = None ->
    let ts := update_trailing (pos_direction p) (trailing_stop st) (close r)
                (atr_at atr_series (idx r)) in
    trailing_hit (pos_direction p) ts (close r) = false ->
    stop_hit p (close r) = false ->
    target_hit p (close r) = false ->
    sim_step self atr_series st r = Raise (KeyError "signal").
Proof.
  intros self atr_series st r p Hp Hs ts H1 H2 H3.
  unfold sim_step, manage_position. rewrite Hp. fold ts.
  unfold close_reason. rewrite H1, H2, H3, Hs. reflexivity.
Qed.

Lemma missing_signal_column_raises_witness :
  cur_position first_bar = Some scenario_A_position /\
  sim_step default_backtester (atr_const 5) first_bar
    {| idx := 1; close := 2010; signal := None; Signal := Some 0%Z |}
  = Raise (KeyError "signal").
Proof.
  assert (Hp : cur_position first_bar = Some scenario_A_position)
    by (vm_compute; reflexivity).
  split; [exact Hp|].
  apply (missing_signal_column_raises default_backtester (atr_const 5) first_bar
           {| idx := 1; close := 2010; signal := None; Signal := Some 0%Z |}
           scenario_A_position Hp eq_refl); vm_compute; reflexivity.
Defined.

(** ** Entries *)

(** What is known of a bar that appends an entry record. *)
Lemma entry_appended self atr_series st r st' earlier e :
  sim_step self atr_series st r = Ok st' ->
  trades st' = earlier ++ [Entry e] ->
  (List.length (trades st) <= List.length earlier)%nat ->
  exists m d lots,
    manage_position self st r (atr_at atr_series (idx r)) = Ok m /\
    m_position m = None /\
    halted self st = false /\
    Signal r = Some (signal_for d) /\
    position_size self (m_balance m)
      (stop_distance self d r (atr_at atr_series (idx r))) = Ok lots /\
    e = new_entry_log self d r (atr_at atr_series (idx r)) lots /\
    cur_position st' = Some (new_position self d r (atr_at atr_series (idx r)) lots) /\
    balance st' = m_balance m.
Proof.
  intros H Htrades Hlen.
  apply sim_step_Ok in H as (m & m' & Hm & Hm' & ->). cbn [trades] in Htrades.
  assert (Hgrow : exists new, m_trades m = trades st ++ new /\ Forall (fun t => is_entry t = false) new).
  { apply manage_position_cases in Hm
      as [[_ ->] | (p & _ & [[_ ->] | (w & _ & ->)])]; simpl.
    - exists []. now rewrite app_nil_r.
    - exists []. now rewrite app_nil_r.
    - eexists. split; [reflexivity|]. repeat constructor. }
  destruct Hgrow as (new & Hnew & Fnew).
  unfold handle_new_signals in Hm'.
  destruct (halted self st) eqn:Hh; simpl in Hm'.
  { injection Hm' as <-. exfalso. rewrite Hnew in Htrades.
    destruct (exists_last_or_nil new) as [-> | (init & t & ->)].
    - rewrite app_nil_r in Htrades. rewrite Htrades, length_app in Hlen. simpl in Hlen. lia.
    - rewrite app_assoc in Htrades. apply app_inj_tail in Htrades as [_ ->].
      apply Forall_app in Fnew as [_ Fnew]. inversion Fnew. discriminate. }
  destruct (m_position m) eqn:Hmp.
  { injection Hm' as <-. exfalso. rewrite Hnew in Htrades.
    destruct (exists_last_or_nil new) as [-> | (init & t & ->)].
    - rewrite app_nil_r in Htrades. rewrite Htrades, length_app in Hlen. simpl in Hlen. lia.
    - rewrite app_assoc in Htrades. apply app_inj_tail in Htrades as [_ ->].
      apply Forall_app in Fnew as [_ Fnew]. inversion Fnew. discriminate. }
  apply bind_Ok in Hm' as (s & Hs & Hm').
  destruct (Signal r) as [S|] eqn:ES; [|discriminate]. injection Hs as ->.
  assert (Hopen : forall d, signal_for d = s ->
            open_position self d m r (atr_at atr_series (idx r)) = Ok m' ->
            exists lots,
              position_size self (m_balance m)
                (stop_distance self d r (atr_at atr_series (idx r))) = Ok lots /\
              e = new_entry_log self d r (atr_at atr_series (idx r)) lots /\
              m_position m' = Some (new_position self d r (atr_at atr_series (idx r)) lots) /\
              m_balance m' = m_balance m).
  { intros d Hd Ho. apply open_position_Ok in Ho as (lots & Hlots & ->).
    cbn [m_trades] in Htrades. apply app_inj_tail in Htrades as [_ [= <-]].
    exists lots. repeat split. exact Hlots. }
  destruct (s =? 1)%Z eqn:E1.
  - apply Z.eqb_eq in E1. subst s.
    destruct (Hopen Long eq_refl Hm') as (lots & Hl & He & Hp & Hb).
    exists m, Long, lots. cbn [cur_position balance]. repeat split; assumption.
  - destruct (s =? -1)%Z eqn:E2.
    + apply Z.eqb_eq in E2. subst s.
      destruct (Hopen Short eq_refl Hm') as (lots & Hl & He & Hp & Hb).
      exists m, Short, lots. cbn [cur_position balance]. repeat split; assumption.
    + injection Hm' as <-. exfalso. rewrite Hnew in Htrades.
      destruct (exists_last_or_nil new) as [-> | (init & t & ->)].
      * rewrite app_nil_r in Htrades. rewrite Htrades, length_app in Hlen.
        simpl in Hlen. lia.
      * rewrite app_assoc in Htrades. apply app_inj_tail in Htrades as [_ ->].
        apply Forall_app in Fnew as [_ Fnew]. inversion Fnew. discriminate.
Qed.

(** X6.  An entry record is stamped with its bar, comes from a ['Signal']
    of 1 (long) or -1 (short) and has the close moved by the spread against
    the trader as entry price.  When the ATR of the bar is a number
    [a > 0], the stop loss and the take profit bracket the entry price, the
    take profit twice as far as the stop loss, and the first trailing stop
    sits on the stop loss.  (Nothing is said of a bar whose ATR is NaN or
    missing.) *)
Theorem entry_brackets :
  forall self atr_series st r st' earlier e,
    sim_step self atr_series st r = Ok st' ->
    trades st' = earlier ++ [Entry e] ->
    (List.length (trades st) <= List.length earlier)%nat ->
    el_entry_time e = idx r /\
    Signal r = Some (signal_for (el_direction e)) /\
    el_entry_price e = entry_price_of self (el_direction e) (close r) /\
    (forall a, atr_series (idx r) = Some a -> 0 < a ->
       match el_direction e with
       | Long =>
           el_stop_loss e < el_entry_price e /\ el_entry_price e < el_take_profit e /\
           el_take_profit e - el_entry_price e == 2 * (el_entry_price e - el_stop_loss e)
       | Short =>
           el_take_profit e < el_entry_price e /\ el_entry_price e < el_stop_loss e /\
           el_entry_price e - el_take_profit e == 2 * (el_stop_loss e - el_entry_price e)
       end /\
       exists t, el_trailing_stop e = Some t /\ t == el_stop_loss e).
Proof.
  intros self atr_series st r st' earlier e H Htrades Hlen.
  destruct (entry_appended _ _ _ _ _ _ _ H Htrades Hlen)
    as (m & d & lots & _ & _ & _ & HS & _ & -> & _ & _).
  unfold atr_at. cbn [new_entry_log el_entry_time el_direction el_entry_price
                      el_stop_loss el_take_profit el_trailing_stop].
  split; [reflexivity|]. split; [exact HS|]. split; [reflexivity|].
  intros a -> Ha. unfold entry_sl, entry_tp, entry_trailing,
    ATR_STOP_LOSS_MULTIPLIER, ATR_TAKE_PROFIT_MULTIPLIER, ATR_MULTIPLIER.
  destruct d; (split; [repeat split; lra|]); eexists; split; reflexivity.
Qed.

Lemma entry_brackets_witness :
  sim_step default_backtester (atr_const 5) (initial_state [] []) (bar 0 2000 1)
    = Ok first_bar /\
  trades first_bar = [] ++ [Entry first_entry] /\
  el_direction first_entry = Long /\
  el_stop_loss first_entry < el_entry_price first_entry /\
  el_entry_price first_entry < el_take_profit first_entry /\
  el_take_profit first_entry - el_entry_price first_entry
    == 2 * (el_entry_price first_entry - el_stop_loss first_entry) /\
  exists t, el_trailing_stop first_entry = Some t /\ t == el_stop_loss first_entry.
Proof.
  assert (Hstep : sim_step default_backtester (atr_const 5) (initial_state [] [])
                    (bar 0 2000 1) = Ok first_bar) by (vm_compute; reflexivity).
  assert (Htrades : trades first_bar = [] ++ [Entry first_entry])
    by (vm_compute; reflexivity).
  destruct (entry_brackets default_backtester (atr_const 5) (initial_state [] [])
              (bar 0 2000 1) first_bar [] first_entry Hstep Htrades (le_n 0))
    as (_ & _ & _ & Hatr).
  assert (Ha : (0 : Q) < 5) by reflexivity.
  destruct (Hatr 5 eq_refl Ha) as (Hb & Ht).
  change (el_direction first_entry) with Long in Hb.
  destruct Hb as (H1 & H2 & H3).
  split; [exact Hstep|]. split; [exact Htrades|]. split; [reflexivity|].
  split; [exact H1|]. split; [exact H2|]. split; [exact H3|exact Ht].
Defined.

(** X7.  A bar that closes a position can open the next one: when the flag
    is clear, the pip value is not zero and ['Signal'] asks for a position,
    the bar appends the close record and then an entry record, and the new
    position is sized with the balance that already holds the PnL of the
    close. *)
Theorem reentry_on_closing_bar :
  forall self atr_series st r p why d,
    ~ pip_value self == 0 ->
    cur_position st = Some p ->
    halted self st = false ->
    let atr := atr_at atr_series (idx r) in
    let ts := update_trailing (pos_direction p) (trailing_stop st) (close r) atr in
    let pnl := _calculate_pnl self p (close r) in
    close_reason p ts (close r) r = Ok (Some why) ->
    Signal r = Some (signal_for d) ->
    exists st' lots,
      sim_step self atr_series st r = Ok st' /\
      position_size self (balance st + pnl) (stop_distance self d r atr) = Ok lots /\
      trades st' = trades st ++
        [Closed (close_record p (idx r) (close r) ts pnl (balance st + pnl) why);
         Entry (new_entry_log self d r atr lots)] /\
      cur_position st' = Some (new_position self d r atr lots) /\
      balance st' = balance st + pnl.
Proof.
  intros self atr_series st r p why d Hpip Hp Hh atr ts pnl Hwhy HS.
  destruct (position_size_total self (balance st + pnl) (stop_distance self d r atr) Hpip)
    as (lots & Hlots).
  eexists. exists lots.
  unfold sim_step, manage_position. rewrite Hp. fold atr ts. rewrite Hwhy.
  cbn [bind]. unfold halted in Hh. rewrite Hh.
  unfold handle_new_signals, close_out. cbn [negb m_position]. rewrite HS. cbn [getitem bind].
  assert (Hopen : open_position self d
            {| m_balance := balance st + pnl; m_equity := balance st + pnl;
               m_position := None; m_trailing_stop := None;
               m_trades := trades st ++
                 [Closed (close_record p (idx r) (close r) ts pnl (balance st + pnl) why)] |}
            r atr
          = Ok {| m_balance := balance st + pnl; m_equity := balance st + pnl;
                  m_position := Some (new_position self d r atr lots);
                  m_trailing_stop := entry_trailing d (entry_price_of self d (close r)) atr;
                  m_trades := (trades st ++
                    [Closed (close_record p (idx r) (close r) ts pnl (balance st + pnl) why)])
                    ++ [Entry (new_entry_log self d r atr lots)] |}).
  { unfold open_position. cbn [m_balance m_equity m_trades]. rewrite Hlots. reflexivity. }
  fold pnl.
  destruct d; cbn [signal_for Z.eqb Pos.eqb]; rewrite Hopen; cbn [bind];
    (split; [reflexivity|]); cbn [trades cur_position balance m_trades m_position m_balance];
    rewrite <- app_assoc; repeat split; exact Hlots.
Qed.

Lemma reentry_on_closing_bar_witness :
  ~ pip_value default_backtester == 0 /\
  cur_position after_rise = Some scenario_A_position /\
  halted default_backtester after_rise = false /\
  exists st' e c,
    sim_step default_backtester (atr_const 5) after_rise (bar 2 1999 (-1)) = Ok st' /\
    trades st' = trades after_rise ++ [Closed c; Entry e] /\
    ct_exit_reason c = trailing_stop_hit /\ el_direction e = Short /\
    balance st' = balance after_rise + ct_pnl c.
Proof.
  assert (Hpip : ~ pip_value default_backtester == 0) by discriminate.
  assert (Hp : cur_position after_rise = Some scenario_A_position)
    by (vm_compute; reflexivity).
  assert (Hh : halted default_backtester after_rise = false) by (vm_compute; reflexivity).
  split; [exact Hpip|]. split; [exact Hp|]. split; [exact Hh|].
  destruct (reentry_on_closing_bar default_backtester (atr_const 5) after_rise
              (bar 2 1999 (-1)) scenario_A_position trailing_stop_hit Short Hpip Hp Hh)
    as (st' & lots & Hstep & _ & Htrades & _ & Hbal);
    [vm_compute; reflexivity|reflexivity|].
  exists st'. eexists. eexists. split; [exact Hstep|]. split; [exact Htrades|].
  split; [reflexivity|]. split; [reflexivity|exact Hbal].
Defined.

(** ** Performance of closed trades *)

Lemma drawdown_loop_bounds equity_values :
  forall peak max_dd,
    0 < peak -> 0 <= max_dd -> max_dd < 1 ->
    Forall (fun e => 0 < e) equity_values ->
    exists dd, drawdown_loop peak max_dd equity_values = Ok dd /\ 0 <= dd /\ dd < 1.
Proof.
  induction equity_values as [|e rest IH]; intros peak max_dd Hpeak H0 H1 Hpos.
  - simpl. eauto.
  - inversion Hpos as [|? ? He Hrest]; subst. simpl.
    set (peak' := if Qgtb e peak then e else peak).
    assert (Hpeak' : 0 < peak' /\ e <= peak').
    { subst peak'. destruct (Qgtb e peak) eqn:E.
      - split; [exact He|apply Qle_refl].
      - apply Qgtb_le in E. split; assumption. }
    destruct Hpeak' as [Hp' Hle].
    rewrite py_div_nonzero by (intro Hz; rewrite Hz in Hp'; discriminate).
    cbn [bind].
    assert (Hdd : 0 <= (peak' - e) / peak' /\ (peak' - e) / peak' < 1).
    { split.
      - apply Qle_shift_div_l; [exact Hp'|]. lra.
      - apply Qlt_shift_div_r; [exact Hp'|]. lra. }
    destruct Hdd as [Hd0 Hd1].
    apply IH; trivial; destruct (Qgtb ((peak' - e) / peak') max_dd); assumption.
Qed.

Lemma len_filter_le {A : Type} (f : A -> bool) (l : list A) : len (filter f l) <= len l.
Proof.
  unfold len. rewrite <- Zle_Qle. apply Nat2Z.inj_le. apply filter_length_le.
Qed.

Lemma len_nonneg {A : Type} (l : list A) : 0 <= len l.
Proof.
  unfold len. change 0 with (inject_Z 0). rewrite <- Zle_Qle. lia.
Qed.

(** X8.  On a trade list made of close records only and an equity curve
    that is not empty and whose values are positive, [_calculate_performance]
    returns a dict with every field of the Summary: [num_trades] counts
    the records, [win_rate] is the share of records with a positive [pnl]
    and lies between 0 and 1, [max_drawdown] is at least 0 and below 1, and
    [final_balance] is the [balance] of the last record. *)
Theorem performance_of_closed_trades_returns :
  forall sharpe_of c0 cs self_equity_curve,
    self_equity_curve <> [] ->
    Forall (fun pt => 0 < ep_equity pt) self_equity_curve ->
    let all := c0 :: cs in
    let winners := filter (fun c => Qgtb (ct_pnl c) 0) all in
    exists d dd,
      _calculate_performance sharpe_of (map Closed all) self_equity_curve = Ok d /\
      fully_populated d = true /\
      perf_get "num_trades" d = Some (PNum (len all)) /\
      perf_get "win_rate" d = Some (PNum (len winners / len all)) /\
      0 <= len winners / len all /\ len winners / len all <= 1 /\
      perf_get "max_drawdown" d = Some (PNum dd) /\ 0 <= dd /\ dd < 1 /\
      perf_get "final_balance" d = Some (PNum (ct_balance (last all c0))).
Proof.
  intros sharpe_of c0 cs ec Hne Hpos all winners.
  destruct ec as [|pt0 ec]; [contradiction|].
  assert (Hpos' : Forall (fun e => 0 < e) (map ep_equity (pt0 :: ec))).
  { apply Forall_map. exact Hpos. }
  assert (Hp0 : 0 < ep_equity pt0) by (inversion Hpos; assumption).
  destruct (drawdown_loop_bounds (map ep_equity (pt0 :: ec)) (ep_equity pt0) 0 Hp0
              (Qle_refl 0) eq_refl Hpos') as (dd & Hdd & Hd0 & Hd1).
  assert (Hall : 0 < len all).
  { apply Qgtb_lt. apply len_cons_positive. }
  eexists. exists dd. split; [|split; [|split; [|split; [|split; [|split]]]]].
  - unfold _calculate_performance.
    change (map Closed all) with (Closed c0 :: map Closed cs). cbv iota.
    change (Closed c0 :: map Closed cs) with (map Closed all).
    rewrite !select_by_pnl_closed. cbn [bind].
    rewrite !mean_pnl_closed, last_closed. cbn [bind getitem balance_of].
    rewrite !len_map.
    rewrite (len_cons_positive c0 cs : Qgtb (len all) 0 = true).
    change (match map ep_equity (pt0 :: ec) with
            | [] => Raise IndexError
            | e :: _ => Ok e
            end) with (Ok (A := Q) (ep_equity pt0)).
    cbn [bind]. rewrite Hdd. cbn [bind]. reflexivity.
  - reflexivity.
  - reflexivity.
  - reflexivity.
  - apply Qle_shift_div_l; [exact Hall|]. rewrite Qmult_0_l. apply len_nonneg.
  - apply Qle_shift_div_r; [exact Hall|]. rewrite Qmult_1_l. apply len_filter_le.
  - repeat split; assumption.
Qed.

Lemma performance_of_closed_trades_returns_witness :
  sample_curve <> [] /\
  Forall (fun pt => 0 < ep_equity pt) sample_curve /\
  exists d dd,
    _calculate_performance (fun _ => 0) [Closed one_close] sample_curve = Ok d /\
    fully_populated d = true /\
    perf_get "max_drawdown" d = Some (PNum dd) /\ 0 <= dd /\ dd < 1.
Proof.
  assert (Hne : sample_curve <> []) by discriminate.
  assert (Hpos : Forall (fun pt => 0 < ep_equity pt) sample_curve)
    by (repeat constructor).
  split; [exact Hne|]. split; [exact Hpos|].
  destruct (performance_of_closed_trades_returns (fun _ => 0) one_close [] sample_curve
              Hne Hpos) as (d & dd & H & Hfull & _ & _ & _ & _ & Hdd & H0 & H1 & _).
  exists d, dd. repeat split; assumption.
Defined.

(** * Further properties of the risk manager *)

(** ** Trailing stops of the open positions *)

Lemma iloc_last_Ok {A : Type} (l : list A) :
  l <> [] -> exists x, Indicators.iloc_last l = Ok x.
Proof.
  intro Hne. unfold Indicators.iloc_last. destruct (rev l) as [|x rest] eqn:E; [|eauto].
  exfalso. apply Hne. rewrite <- (rev_involutive l), E. reflexivity.
Qed.

Lemma calculate_atr_length df period :
  List.length (Indicators.calculate_atr df period) = List.length df.
Proof.
  unfold Indicators.calculate_atr. now rewrite length_map, length_seq.
Qed.

Lemma trailed_refl pos : trailed pos pos.
Proof. now left. Qed.

Section Callbacks.

Variable get_latest_data : string -> result (option (list Indicators.candle)).
Variable update_broker_sl : string -> Q -> result unit.
Hypothesis data_returned : forall sym, exists latest, get_latest_data sym = Ok latest.
Hypothesis stop_sent : forall sym stop, exists sent, update_broker_sl sym stop = Ok sent.

Lemma trail_position_spec pos :
  exists pos' calls,
    RiskManager.trail_position get_latest_data update_broker_sl pos = Ok (pos', calls) /\
    trailed pos pos' /\ calls = broker_calls [pos] [pos'].
Proof.
  assert (Hsame : exists pos' calls,
            Ok (A := RiskManager.open_position * list (string * Q)) (pos, [])
            = Ok (pos', calls) /\
            trailed pos pos' /\ calls = broker_calls [pos] [pos']).
  { exists pos, []. split; [reflexivity|]. split; [apply trailed_refl|].
    simpl. now rewrite Qeq_bool_refl. }
  unfold RiskManager.trail_position.
  destruct (data_returned (RiskManager.symbol pos)) as (latest & ->). cbn [bind].
  destruct latest as [data|]; [|exact Hsame].
  destruct (List.length data <? 2)%nat eqn:El; [exact Hsame|].
  apply Nat.ltb_ge in El.
  destruct (iloc_last_Ok data) as (last_row & ->).
  { intros ->. simpl in El. lia. }
  destruct (iloc_last_Ok (Indicators.calculate_atr data ATR_PERIOD)) as (atr_val & ->).
  { intro E. apply (f_equal (@List.length _)) in E.
    rewrite calculate_atr_length in E. simpl in E. lia. }
  cbn [bind]. destruct atr_val as [a|]; [|exact Hsame].
  destruct (String.eqb (RiskManager.direction pos) "buy") eqn:Ed.
  - destruct (Qgtb (Indicators.close last_row - ATR_MULTIPLIER * a)
                (RiskManager.stop_loss pos)) eqn:E; [|exact Hsame].
    apply Qgtb_lt in E.
    destruct (stop_sent (RiskManager.symbol pos)
                (Indicators.close last_row - ATR_MULTIPLIER * a)) as (sent & ->).
    cbn [bind]. eexists. eexists. split; [reflexivity|]. split.
    + right. eexists. split; [reflexivity|]. rewrite Ed. exact E.
    + cbn. destruct (Qeq_bool _ _) eqn:Eq; [|reflexivity].
      apply Qeq_bool_iff in Eq. rewrite Eq in E. exfalso. exact (Qlt_irrefl _ E).
  - destruct (Qltb (Indicators.close last_row + ATR_MULTIPLIER * a)
                (RiskManager.stop_loss pos)) eqn:E; [|exact Hsame].
    apply Qltb_lt in E.
    destruct (stop_sent (RiskManager.symbol pos)
                (Indicators.close last_row + ATR_MULTIPLIER * a)) as (sent & ->).
    cbn [bind]. eexists. eexists. split; [reflexivity|]. split.
    + right. eexists. split; [reflexivity|]. rewrite Ed. exact E.
    + cbn. destruct (Qeq_bool _ _) eqn:Eq; [|reflexivity].
      apply Qeq_bool_iff in Eq. rewrite Eq in E. exfalso. exact (Qlt_irrefl _ E).
Qed.

Lemma trail_positions_spec positions :
  exists positions' calls,
    RiskManager.trail_positions get_latest_data update_broker_sl positions
    = Ok (positions', calls) /\
    Forall2 trailed positions positions' /\
    calls = broker_calls positions positions'.
Proof.
  induction positions as [|pos rest IH].
  - exists [], []. repeat split. constructor.
  - destruct (trail_position_spec pos) as (pos' & calls1 & H1 & T1 & C1).
    destruct IH as (rest' & calls2 & H2 & T2 & C2).
    exists (pos' :: rest'), (calls1 ++ calls2). split.
    + simpl. rewrite H1, H2. reflexivity.
    + split; [constructor; assumption|].
      rewrite C1, C2. simpl. now rewrite app_nil_r.
Qed.

End Callbacks.

(** X9.  When the two callbacks return, [update_trailing_stops] raises
    nothing of its own and keeps the positions in number and order.  Each
    position is left exactly as it was, or has its stop loss moved strictly
    in the favourable direction (up for ['buy'], down otherwise), its
    trailing stop put on the new stop loss and every other field kept.  The
    broker callback is called once, with the new stop, for each position
    whose stop moved, in the order of the positions; nothing else of the
    manager changes. *)
Theorem update_trailing_stops_only_tightens :
  forall self get_latest_data update_broker_sl,
    (forall sym, exists latest, get_latest_data sym = Ok latest) ->
    (forall sym stop, exists sent, update_broker_sl sym stop = Ok sent) ->
    exists positions' calls,
      RiskManager.update_trailing_stops self get_latest_data update_broker_sl
      = Ok (RiskManager.set_open_positions self positions', calls) /\
      Forall2 trailed (RiskManager.open_positions self) positions' /\
      calls = broker_calls (RiskManager.open_positions self) positions'.
Proof.
  intros self get_latest_data update_broker_sl Hdata Hsent.
  destruct (trail_positions_spec get_latest_data update_broker_sl Hdata Hsent
              (RiskManager.open_positions self)) as (positions' & calls & H & T & C).
  exists positions', calls. split; [|split; assumption].
  unfold RiskManager.update_trailing_stops. rewrite H. reflexivity.
Qed.

Lemma update_trailing_stops_only_tightens_witness :
  (forall sym, exists latest, gold_data sym = Ok latest) /\
  (forall sym stop, exists sent, broker_accepts sym stop = Ok sent) /\
  exists positions' calls,
    RiskManager.update_trailing_stops three_positions gold_data broker_accepts
    = Ok (RiskManager.set_open_positions three_positions positions', calls) /\
    Forall2 trailed (RiskManager.open_positions three_positions) positions' /\
    calls = broker_calls (RiskManager.open_positions three_positions) positions'.
Proof.
  assert (Hdata : forall sym, exists latest, gold_data sym = Ok latest)
    by (intro sym; unfold gold_data; destruct (String.eqb sym "XAUUSD"); eauto).
  assert (Hsent : forall sym stop, exists sent, broker_accepts sym stop = Ok sent)
    by (intros sym stop; unfold broker_accepts; eauto).
  split; [exact Hdata|]. split; [exact Hsent|].
  exact (update_trailing_stops_only_tightens three_positions gold_data broker_accepts
           Hdata Hsent).
Defined.

Example update_trailing_stops_moves_gold :
  exists positions',
    RiskManager.update_trailing_stops three_positions gold_data broker_accepts
    = Ok (RiskManager.set_open_positions three_positions positions',
          [("XAUUSD", 2000 - 2 * (28 / 14)); ("XAUUSD", 2000 + 2 * (28 / 14))]) /\
    map RiskManager.pnl positions' = [0; 0; 0] /\
    map RiskManager.symbol positions' = ["EURUSD"; "XAUUSD"; "XAUUSD"].
Proof.
  eexists. split; [vm_compute; reflexivity|]. split; reflexivity.
Qed.

(** ** PnL of the open positions *)

Lemma update_first_pnl_split sym price before pos after :
  RiskManager.symbol pos = sym ->
  Forall (fun q => RiskManager.symbol q <> sym) before ->
  RiskManager.update_first_pnl sym price (before ++ pos :: after)
  = before ++ RiskManager.with_pnl pos (RiskManager.position_pnl pos price) :: after.
Proof.
  intros Hs Hb. induction Hb as [|q before Hq Hb IH]; simpl.
  - apply String.eqb_eq in Hs. now rewrite Hs.
  - apply String.eqb_neq in Hq. rewrite Hq, IH. reflexivity.
Qed.

(** X10.  [update_position_pnl] refreshes the first position of the symbol
    and stops: that position gets, as [unrealized_pnl] and [pnl], the price
    move in its direction times lot size times 100000 (no commission), and
    every other position, later ones of the same symbol included, is left
    as it was. *)
Theorem update_position_pnl_first_only :
  forall self sym price before pos after,
    RiskManager.open_positions self = before ++ pos :: after ->
    RiskManager.symbol pos = sym ->
    Forall (fun q => RiskManager.symbol q <> sym) before ->
    let v := if String.eqb (RiskManager.direction pos) "buy"
             then (price - RiskManager.entry_price pos) * RiskManager.lot_size pos * 100000
             else (RiskManager.entry_price pos - price) * RiskManager.lot_size pos * 100000 in
    exists pos',
      RiskManager.open_positions (RiskManager.update_position_pnl self sym price)
      = before ++ pos' :: after /\
      RiskManager.unrealized_pnl pos' = Some v /\ RiskManager.pnl pos' = v /\
      RiskManager.stop_loss pos' = RiskManager.stop_loss pos /\
      RiskManager.symbol pos' = sym.
Proof.
  intros self sym price before pos after E Hs Hb v.
  exists (RiskManager.with_pnl pos (RiskManager.position_pnl pos price)).
  split; [|repeat split; assumption].
  unfold RiskManager.update_position_pnl. cbn [RiskManager.open_positions
    RiskManager.set_open_positions]. rewrite E. now apply update_first_pnl_split.
Qed.

Lemma update_position_pnl_first_only_witness :
  RiskManager.open_positions three_positions = [euro_buy] ++ gold_buy :: [gold_sell] /\
  exists pos',
    RiskManager.open_positions (RiskManager.update_position_pnl three_positions "XAUUSD" 2010)
    = [euro_buy] ++ pos' :: [gold_sell] /\
    RiskManager.unrealized_pnl pos' = Some ((2010 - 2000) * (1 # 100) * 100000).
Proof.
  split; [reflexivity|].
  destruct (update_position_pnl_first_only three_positions "XAUUSD" 2010 [euro_buy]
              gold_buy [gold_sell] eq_refl eq_refl) as (pos' & E & U & _).
  { constructor; [discriminate|constructor]. }
  exists pos'. split; [exact E|exact U].
Defined.

(** ** Exits and removals *)

Lemma exit_of_None pos price :
  RiskManager.exit_of pos price = None <->
  ~ reached_stop pos price /\ ~ reached_target pos price.
Proof.
  unfold RiskManager.exit_of, reached_stop, reached_target.
  destruct (String.eqb (RiskManager.direction pos) "buy").
  - destruct (Qleb price (RiskManager.stop_loss pos)) eqn:E1.
    + apply Qleb_le in E1. split; [discriminate|tauto].
    + apply Qleb_gt in E1.
      destruct (Qgeb price (RiskManager.take_profit pos)) eqn:E2.
      * apply Qgeb_le in E2. split; [discriminate|tauto].
      * apply Qleb_gt in E2. split; [|reflexivity]. intros _.
        split; intro H; [exact (Qlt_not_le _ _ E1 H)|exact (Qlt_not_le _ _ E2 H)].
  - destruct (Qgeb price (RiskManager.stop_loss pos)) eqn:E1.
    + apply Qgeb_le in E1. split; [discriminate|tauto].
    + apply Qleb_gt in E1.
      destruct (Qleb price (RiskManager.take_profit pos)) eqn:E2.
      * apply Qleb_le in E2. split; [discriminate|tauto].
      * apply Qleb_gt in E2. split; [|reflexivity]. intros _.
        split; intro H; [exact (Qlt_not_le _ _ E1 H)|exact (Qlt_not_le _ _ E2 H)].
Qed.

Lemma exit_of_Some pos price why :
  RiskManager.exit_of pos price = Some why ->
  (why = "stop_loss" /\ reached_stop pos price) \/
  (why = "take_profit" /\ reached_target pos price /\ ~ reached_stop pos price).
Proof.
  unfold RiskManager.exit_of, reached_stop, reached_target.
  destruct (String.eqb (RiskManager.direction pos) "buy").
  - destruct (Qleb price (RiskManager.stop_loss pos)) eqn:E1.
    + apply Qleb_le in E1. intros [= <-]. now left.
    + apply Qleb_gt in E1.
      destruct (Qgeb price (RiskManager.take_profit pos)) eqn:E2; [|discriminate].
      apply Qgeb_le in E2. intros [= <-]. right. repeat split; trivial.
      intro H. exact (Qlt_not_le _ _ E1 H).
  - destruct (Qgeb price (RiskManager.stop_loss pos)) eqn:E1.
    + apply Qgeb_le in E1. intros [= <-]. now left.
    + apply Qleb_gt in E1.
      destruct (Qleb price (RiskManager.take_profit pos)) eqn:E2; [|discriminate].
      apply Qleb_le in E2. intros [= <-]. right. repeat split; trivial.
      intro H. exact (Qlt_not_le _ _ E1 H).
Qed.

(** X11.  [check_stop_loss_take_profit] answers [None] exactly when no
    position of the symbol has reached its stop or its target; it answers
    ['stop_loss'] only for a position of the symbol at its stop, and
    ['take_profit'] only for one at its target and not at its stop; it
    answers nothing else. *)
Theorem check_stop_loss_take_profit_sound :
  forall self sym price,
    (RiskManager.check_stop_loss_take_profit self sym price = None <->
     forall pos, In pos (RiskManager.open_positions self) ->
       RiskManager.symbol pos = sym ->
       ~ reached_stop pos price /\ ~ reached_target pos price) /\
    (forall why,
       RiskManager.check_stop_loss_take_profit self sym price = Some why ->
       exists pos,
         In pos (RiskManager.open_positions self) /\ RiskManager.symbol pos = sym /\
         (why = "stop_loss" /\ reached_stop pos price \/
          why = "take_profit" /\ reached_target pos price /\ ~ reached_stop pos price)).
Proof.
  intros self sym price. unfold RiskManager.check_stop_loss_take_profit.
  induction (RiskManager.open_positions self) as [|pos rest [IHn IHs]]; simpl.
  - split; [split; [contradiction|reflexivity]|discriminate].
  - destruct (String.eqb (RiskManager.symbol pos) sym) eqn:Es.
    + apply String.eqb_eq in Es.
      destruct (RiskManager.exit_of pos price) as [why|] eqn:Ee.
      * split.
        -- split; [discriminate|]. intro H.
           assert (Hn : RiskManager.exit_of pos price = None)
             by (apply exit_of_None; apply H; auto).
           congruence.
        -- intros w [= <-]. exists pos. split; [now left|]. split; [exact Es|].
           now apply exit_of_Some.
      * split.
        -- rewrite IHn. split.
           ++ intros H q [<-|Hq] Hs; [now apply exit_of_None|auto].
           ++ intros H q Hq. apply H. now right.
        -- intros w Hw. destruct (IHs w Hw) as (q & Hq & Hrest).
           exists q. split; [now right|exact Hrest].
    + apply String.eqb_neq in Es. split.
      * rewrite IHn. split.
        -- intros H q [<-|Hq] Hs; [contradiction|auto].
        -- intros H q Hq. apply H. now right.
      * intros w Hw. destruct (IHs w Hw) as (q & Hq & Hrest).
        exists q. split; [now right|exact Hrest].
Qed.

Lemma first_exit_other_symbol sym sym' price positions :
  sym' <> sym ->
  RiskManager.first_exit sym' price
    (filter (fun pos => negb (String.eqb (RiskManager.symbol pos) sym)) positions)
  = RiskManager.first_exit sym' price positions.
Proof.
  intro Hne. induction positions as [|pos rest IH]; simpl; [reflexivity|].
  destruct (String.eqb (RiskManager.symbol pos) sym) eqn:Es; simpl.
  - apply String.eqb_eq in Es.
    destruct (String.eqb (RiskManager.symbol pos) sym') eqn:Es'; [|exact IH].
    apply String.eqb_eq in Es'. congruence.
  - now rewrite IH.
Qed.

Lemma first_exit_removed sym price positions :
  RiskManager.first_exit sym price
    (filter (fun pos => negb (String.eqb (RiskManager.symbol pos) sym)) positions)
  = None.
Proof.
  induction positions as [|pos rest IH]; simpl; [reflexivity|].
  destruct (String.eqb (RiskManager.symbol pos) sym) eqn:Es; simpl; [exact IH|].
  now rewrite Es.
Qed.

(** X12.  After [remove_position(symbol)], with no direction or with an
    empty one, the positions left are those of the other symbols, in their
    order; [check_stop_loss_take_profit] answers [None] for the symbol at
    every price and answers for every other symbol what it answered
    before. *)
Theorem remove_position_clears_symbol :
  forall self sym dir price,
    dir = None \/ dir = Some "" ->
    let self' := RiskManager.remove_position self sym dir in
    (forall pos, In pos (RiskManager.open_positions self') <->
       In pos (RiskManager.open_positions self) /\ RiskManager.symbol pos <> sym) /\
    RiskManager.check_stop_loss_take_profit self' sym price = None /\
    (forall sym', sym' <> sym ->
       RiskManager.check_stop_loss_take_profit self' sym' price
       = RiskManager.check_stop_loss_take_profit self sym' price).
Proof.
  intros self sym dir price Hdir self'.
  assert (E : RiskManager.open_positions self'
              = filter (fun pos => negb (String.eqb (RiskManager.symbol pos) sym))
                  (RiskManager.open_positions self)).
  { subst self'. destruct Hdir as [-> | ->]; reflexivity. }
  unfold RiskManager.check_stop_loss_take_profit. rewrite E. split; [|split].
  - intro pos. rewrite filter_In, negb_true_iff, String.eqb_neq. reflexivity.
  - apply first_exit_removed.
  - intros sym' Hne. now apply first_exit_other_symbol.
Qed.

Lemma remove_position_clears_symbol_witness :
  RiskManager.check_stop_loss_take_profit three_positions "XAUUSD" 1980 = Some "stop_loss" /\
  RiskManager.open_positions (RiskManager.remove_position three_positions "XAUUSD" (Some ""))
  = [euro_buy] /\
  RiskManager.check_stop_loss_take_profit
    (RiskManager.remove_position three_positions "XAUUSD" (Some "")) "XAUUSD" 1980 = None /\
  RiskManager.check_stop_loss_take_profit
    (RiskManager.remove_position three_positions "XAUUSD" (Some "")) "EURUSD" 1980
  = RiskManager.check_stop_loss_take_profit three_positions "EURUSD" 1980.
Proof.
  destruct (remove_position_clears_symbol three_positions "XAUUSD" (Some "") 1980
              (or_intror eq_refl)) as (_ & Hnone & Hother).
  split; [reflexivity|]. split; [reflexivity|]. split; [exact Hnone|].
  apply Hother. discriminate.
Defined.

Lemma check_stop_loss_take_profit_sound_witness :
  RiskManager.check_stop_loss_take_profit three_positions "XAUUSD" 1980 = Some "stop_loss" /\
  exists pos,
    In pos (RiskManager.open_positions three_positions) /\
    RiskManager.symbol pos = "XAUUSD" /\
    ("stop_loss" = "stop_loss" /\ reached_stop pos 1980 \/
     "stop_loss" = "take_profit" /\ reached_target pos 1980 /\ ~ reached_stop pos 1980).
Proof.
  assert (H : RiskManager.check_stop_loss_take_profit three_positions "XAUUSD" 1980
              = Some "stop_loss") by reflexivity.
  split; [exact H|].
  exact (proj2 (check_stop_loss_take_profit_sound three_positions "XAUUSD" 1980) _ H).
Defined.

(** ** Opening a position *)

Lemma Qgtb_proper a b m : a == b -> Qgtb a m = Qgtb b m.
Proof.
  intro E. destruct (Qgtb a m) eqn:Ea; symmetry.
  - apply Qgtb_lt. apply Qgtb_lt in Ea. now rewrite <- E.
  - apply Qgtb_le. apply Qgtb_le in Ea. now rewrite <- E.
Qed.

Lemma Qgeb_proper a b m : a == b -> Qgeb a m = Qgeb b m.
Proof.
  intro E. destruct (Qgeb a m) eqn:Ea; symmetry.
  - apply Qgeb_le. apply Qgeb_le in Ea. now rewrite <- E.
  - apply Qleb_gt. apply Qleb_gt in Ea. now rewrite <- E.
Qed.

Lemma total_risk_Ok self positions :
  forall acc v,
    RiskManager.total_risk self acc positions = Ok v ->
    (positions = [] \/ ~ RiskManager.account_balance self == 0) /\
    v == acc + Qsum (map (fun pos => Qabs (unrealized_of pos)
                                     / RiskManager.account_balance self) positions).
Proof.
  induction positions as [|pos rest IH]; simpl; intros acc v H.
  - injection H as <-. split; [now left|]. now rewrite Qplus_0_r.
  - apply bind_Ok in H as (risk_pct & Hd & H). apply py_div_Ok in Hd as [Hb ->].
    apply IH in H as [_ ->]. split; [now right|].
    unfold unrealized_of. symmetry. apply Qplus_assoc.
Qed.

Lemma total_risk_nonzero self positions :
  ~ RiskManager.account_balance self == 0 ->
  forall acc, exists v, RiskManager.total_risk self acc positions = Ok v.
Proof.
  intro Hb. induction positions as [|pos rest IH]; simpl; intro acc; [eauto|].
  rewrite py_div_nonzero by exact Hb. cbn [bind]. apply IH.
Qed.

Lemma calculate_portfolio_risk_Ok self v :
  RiskManager.calculate_portfolio_risk self = Ok v ->
  (RiskManager.open_positions self = [] \/ ~ RiskManager.account_balance self == 0) /\
  v == portfolio_risk self.
Proof.
  unfold RiskManager.calculate_portfolio_risk, portfolio_risk.
  destruct (RiskManager.open_positions self) as [|pos rest] eqn:E.
  - intros [= <-]. split; [now left|reflexivity].
  - intro H. apply total_risk_Ok in H as [[Hn|Hb] Hv]; [discriminate|].
    split; [now right|]. now rewrite Hv, Qplus_0_l.
Qed.

Lemma calculate_portfolio_risk_total self :
  RiskManager.open_positions self = [] \/ ~ RiskManager.account_balance self == 0 ->
  exists v, RiskManager.calculate_portfolio_risk self = Ok v.
Proof.
  unfold RiskManager.calculate_portfolio_risk. intros [->|Hb]; [eauto|].
  destruct (RiskManager.open_positions self); [eauto|].
  now apply total_risk_nonzero.
Qed.

Lemma check_drawdown_limits_true self sym :
  RiskManager.check_drawdown_limits self sym = Ok true <->
  ~ RiskManager.session_start_balance self == 0 /\
  session_drawdown self <= RiskManager.max_drawdown_per_session self /\
  (positions_of self sym = [] \/
   ~ RiskManager.account_balance self == 0 /\
   symbol_drawdown self sym <= RiskManager.max_drawdown_per_symbol self).
Proof.
  unfold RiskManager.check_drawdown_limits, session_drawdown, symbol_drawdown,
    positions_of.
  set (ps := filter (fun pos => String.eqb (RiskManager.symbol pos) sym)
               (RiskManager.open_positions self)).
  split.
  - intro H. apply bind_Ok in H as (sd & Hd & H). apply py_div_Ok in Hd as [Hs ->].
    split; [exact Hs|].
    destruct (Qgtb _ (RiskManager.max_drawdown_per_session self)) eqn:E1; [discriminate|].
    apply Qgtb_le in E1. split; [exact E1|].
    destruct ps as [|pos rest]; [now left|right].
    apply bind_Ok in H as (yd & Hd & H). apply py_div_Ok in Hd as [Hb ->].
    split; [exact Hb|].
    destruct (Qgtb _ (RiskManager.max_drawdown_per_symbol self)) eqn:E2; [discriminate|].
    apply Qgtb_le in E2. exact E2.
  - intros (Hs & H1 & H2). rewrite py_div_nonzero by exact Hs. cbn [bind].
    apply Qgtb_le in H1. rewrite H1.
    destruct ps as [|pos rest]; [reflexivity|].
    destruct H2 as [H2|[Hb H2]]; [discriminate|].
    rewrite py_div_nonzero by exact Hb. cbn [bind].
    apply Qgtb_le in H2. unfold unrealized_of in H2. rewrite H2. reflexivity.
Qed.

(** X13.  [can_open_position] answers [True] exactly when the last
    [consecutive_losses] are fewer than [circuit_breaker_losses], the
    session drawdown is at most [max_drawdown_per_session], the symbol has
    no position or its drawdown is at most [max_drawdown_per_symbol], fewer
    than [max_positions] positions are open and the portfolio risk is
    strictly below [max_portfolio_risk], the balances being such that the
    divisions are defined; the manager is then left as it was. *)
Theorem can_open_position_iff :
  forall self sym self',
    RiskManager.can_open_position self sym = Ok (true, self') <->
    may_open self sym /\ self' = self.
Proof.
  intros self sym self'. unfold RiskManager.can_open_position,
    RiskManager.check_circuit_breaker, may_open.
  destruct (RiskManager.consecutive_losses self >=? RiskManager.circuit_breaker_losses self)%Z
    eqn:Ecb.
  - cbn [negb]. split; [discriminate|]. intros [[Hcb _] _].
    apply Z.geb_le in Ecb. lia.
  - cbn [negb]. assert (Hcb : (RiskManager.consecutive_losses self
                               < RiskManager.circuit_breaker_losses self)%Z).
    { rewrite Z.geb_leb in Ecb. apply Z.leb_gt in Ecb. exact Ecb. }
    split.
    + intro H. apply bind_Ok in H as (within & Hw & H).
      destruct within; [|discriminate]. cbn [negb] in H.
      apply check_drawdown_limits_true in Hw as (Hs & H1 & H2).
      destruct (Z.of_nat (List.length (RiskManager.open_positions self))
                >=? RiskManager.max_positions self)%Z eqn:Ec; [discriminate|].
      rewrite Z.geb_leb in Ec. apply Z.leb_gt in Ec.
      apply bind_Ok in H as (risk & Hr & H).
      apply calculate_portfolio_risk_Ok in Hr as [Hb Hv].
      destruct (Qgeb risk (RiskManager.max_portfolio_risk self)) eqn:Er; [discriminate|].
      injection H as <-. rewrite (Qgeb_proper _ _ _ Hv) in Er. apply Qleb_gt in Er.
      repeat split; assumption.
    + intros [(_ & Hs & H1 & H2 & Hc & Hb & Hr) ->].
      assert (Hw : RiskManager.check_drawdown_limits self sym = Ok true)
        by (apply check_drawdown_limits_true; auto).
      rewrite Hw. cbn [bind negb].
      assert (Ec : (Z.of_nat (List.length (RiskManager.open_positions self))
                    >=? RiskManager.max_positions self)%Z = false)
        by (rewrite Z.geb_leb; apply Z.leb_gt; exact Hc).
      rewrite Ec.
      destruct (calculate_portfolio_risk_total self Hb) as (v & Hv). rewrite Hv. cbn [bind].
      apply calculate_portfolio_risk_Ok in Hv as [_ Hv].
      rewrite (Qgeb_proper _ _ _ Hv).
      apply Qleb_gt in Hr. unfold Qgeb. rewrite Hr. reflexivity.
Qed.

Lemma can_open_position_iff_witness :
  may_open RiskManager.default "XAUUSD" /\
  RiskManager.can_open_position RiskManager.default "XAUUSD"
  = Ok (true, RiskManager.default).
Proof.
  assert (H : RiskManager.can_open_position RiskManager.default "XAUUSD"
              = Ok (true, RiskManager.default)) by (vm_compute; reflexivity).
  destruct (proj1 (can_open_position_iff RiskManager.default "XAUUSD" RiskManager.default) H)
    as [Hmay _].
  split; [exact Hmay|exact H].
Defined.

(** X14.  A manager whose session started with a balance of 0, such as
    [RiskManager(account_balance=0)], cannot be asked whether a position
    may be opened: unless the circuit breaker answers first,
    [can_open_position] raises [ZeroDivisionError]. *)
Theorem can_open_position_zero_start_balance :
  forall self sym,
    (RiskManager.consecutive_losses self < RiskManager.circuit_breaker_losses self)%Z ->
    RiskManager.session_start_balance self == 0 ->
    RiskManager.can_open_position self sym = Raise ZeroDivisionError.
Proof.
  intros self sym Hcb Hz. unfold RiskManager.can_open_position,
    RiskManager.check_circuit_breaker.
  assert (Ecb : (RiskManager.consecutive_losses self
                 >=? RiskManager.circuit_breaker_losses self)%Z = false)
    by (rewrite Z.geb_leb; apply Z.leb_gt; exact Hcb).
  rewrite Ecb. cbn [negb]. unfold RiskManager.check_drawdown_limits, py_div.
  apply Qeq_bool_iff in Hz. rewrite Hz. reflexivity.
Qed.

Lemma can_open_position_zero_start_balance_witness :
  RiskManager.can_open_position
    (RiskManager.init 0 (2 # 100) (6 # 100) (30 # 100) (60 # 100) 10 DEFAULT_LOT_SIZE
       (5 # 100) (10 # 100) 5) "XAUUSD"
  = Raise ZeroDivisionError.
Proof.
  apply can_open_position_zero_start_balance; [reflexivity|reflexivity].
Defined.

Lemma record_all_keeps outcomes :
  forall self,
    RiskManager.account_balance (RiskManager.record_all self outcomes)
    = RiskManager.account_balance self /\
    RiskManager.session_start_balance (RiskManager.record_all self outcomes)
    = RiskManager.session_start_balance self /\
    RiskManager.max_drawdown_per_session (RiskManager.record_all self outcomes)
    = RiskManager.max_drawdown_per_session self.
Proof.
  induction outcomes as [|o rest IH]; intro self; [repeat split|].
  change (RiskManager.record_all self (o :: rest))
    with (RiskManager.record_all
            (RiskManager.record_trade_result self (RiskManager.o_symbol o)
               (RiskManager.o_pnl o) (RiskManager.o_win_loss o) (RiskManager.o_now o))
            rest).
  destruct (IH (RiskManager.record_trade_result self (RiskManager.o_symbol o)
                  (RiskManager.o_pnl o) (RiskManager.o_win_loss o) (RiskManager.o_now o)))
    as (-> & -> & ->).
  unfold RiskManager.record_trade_result.
  destruct (String.eqb (RiskManager.o_win_loss o) "loss"); repeat split.
Qed.

(** X15.  Once the balance has fallen from the balance at the start of the
    session by more than [max_drawdown_per_session], [can_open_position] is
    false for every symbol, whatever trade results are recorded after
    that, wins included; [reset_session] puts the session drawdown back to
    0. *)
Theorem session_drawdown_blocks :
  forall self outcomes sym,
    ~ RiskManager.session_start_balance self == 0 ->
    ~ RiskManager.account_balance self == 0 ->
    RiskManager.max_drawdown_per_session self < session_drawdown self ->
    (exists self',
        RiskManager.can_open_position (RiskManager.record_all self outcomes) sym
        = Ok (false, self')) /\
    session_drawdown (RiskManager.reset_session self) == 0.
Proof.
  intros self outcomes sym Hs Hb Hdd. split.
  - destruct (record_all_keeps outcomes self) as (Eb & Es & El).
    set (rm := RiskManager.record_all self outcomes) in *.
    unfold RiskManager.can_open_position, RiskManager.check_circuit_breaker.
    destruct (RiskManager.consecutive_losses rm >=? RiskManager.circuit_breaker_losses rm)%Z;
      cbn [negb]; [eauto|].
    unfold RiskManager.check_drawdown_limits. rewrite Eb, Es, El.
    rewrite py_div_nonzero by exact Hs. cbn [bind].
    apply Qgtb_lt in Hdd. unfold session_drawdown in Hdd. rewrite Hdd. cbn [bind negb].
    eauto.
  - unfold session_drawdown. cbn. field. exact Hb.
Qed.

Lemma session_drawdown_blocks_witness :
  RiskManager.max_drawdown_per_session
    (RiskManager.update_account_balance RiskManager.default 8000)
  < session_drawdown (RiskManager.update_account_balance RiskManager.default 8000) /\
  exists self',
    RiskManager.can_open_position
      (RiskManager.record_all
         (RiskManager.update_account_balance RiskManager.default 8000)
         [ {| RiskManager.o_symbol := "XAUUSD"; RiskManager.o_pnl := 10;
              RiskManager.o_win_loss := "win"; RiskManager.o_now := 0%Z |} ])
      "EURUSD"
    = Ok (false, self').
Proof.
  assert (Hdd : RiskManager.max_drawdown_per_session
                  (RiskManager.update_account_balance RiskManager.default 8000)
                < session_drawdown
                    (RiskManager.update_account_balance RiskManager.default 8000))
    by (vm_compute; reflexivity).
  split; [exact Hdd|].
  refine (proj1 (session_drawdown_blocks
                   (RiskManager.update_account_balance RiskManager.default 8000)
                   _ "EURUSD" _ _ Hdd)); discriminate.
Defined.

(** * Properties of the indicators and of the levels computed from them *)

(** ** Average true range *)

Lemma max2_l a b : a <= Indicators.max2 a b.
Proof.
  unfold Indicators.max2. destruct (Qleb a b) eqn:E; [now apply Qleb_le|apply Qle_refl].
Qed.

Lemma true_range_nonneg previous_close c :
  Indicators.low c <= Indicators.high c ->
  0 <= Indicators.true_range previous_close c.
Proof.
  intro H. unfold Indicators.true_range.
  assert (H0 : 0 <= Indicators.high c - Indicators.low c) by lra.
  destruct previous_close as [pc|]; [|exact H0].
  eapply Qle_trans; [exact H0|]. eapply Qle_trans; apply max2_l.
Qed.

Lemma true_ranges_nonneg df :
  Forall (fun c => Indicators.low c <= Indicators.high c) df ->
  forall previous_close,
    Forall (fun x => 0 <= x) (Indicators.true_ranges previous_close df).
Proof.
  induction 1 as [|c rest Hc Hrest IH]; intro previous_close; simpl; constructor.
  - now apply true_range_nonneg.
  - apply IH.
Qed.

Lemma Forall_skipn' {A : Type} (P : A -> Prop) n :
  forall l, Forall P l -> Forall P (skipn n l).
Proof.
  induction n as [|n IH]; intros l H; [exact H|].
  destruct H; simpl; [constructor|auto].
Qed.

Lemma Forall_firstn' {A : Type} (P : A -> Prop) n :
  forall l, Forall P l -> Forall P (firstn n l).
Proof.
  induction n as [|n IH]; intros l H; [constructor|].
  destruct H; simpl; constructor; auto.
Qed.

Lemma Qsum_nonneg l : Forall (fun x => 0 <= x) l -> 0 <= Qsum l.
Proof.
  induction 1 as [|x rest Hx Hrest IH]; simpl; [apply Qle_refl|lra].
Qed.

Lemma rolling_mean_warm_up period xs i :
  (S i < period)%nat -> Indicators.rolling_mean period xs i = None.
Proof.
  intro H. unfold Indicators.rolling_mean.
  destruct (period =? 0)%nat; [reflexivity|].
  apply Nat.ltb_lt in H. now rewrite H.
Qed.

Lemma rolling_mean_full period xs i :
  (1 <= period)%nat -> (period <= S i)%nat ->
  exists a, Indicators.rolling_mean period xs i = Some a /\
            (Forall (fun x => 0 <= x) xs -> 0 <= a).
Proof.
  intros H1 H2. unfold Indicators.rolling_mean.
  assert (E0 : (period =? 0)%nat = false) by (apply Nat.eqb_neq; lia).
  assert (E1 : (S i <? period)%nat = false) by (apply Nat.ltb_ge; lia).
  rewrite E0, E1. eexists. split; [reflexivity|].
  intro Hxs. apply Qle_shift_div_l.
  - change 0 with (inject_Z 0). rewrite <- Zlt_Qlt. lia.
  - rewrite Qmult_0_l. apply Qsum_nonneg. apply Forall_firstn'. now apply Forall_skipn'.
Qed.

Lemma calculate_atr_nth df period i :
  (i < List.length df)%nat ->
  nth_error (Indicators.calculate_atr df period) i
  = Some (Indicators.rolling_mean period (Indicators.true_ranges None df) i).
Proof.
  intro H. unfold Indicators.calculate_atr.
  rewrite nth_error_map, nth_error_seq.
  apply Nat.ltb_lt in H. now rewrite H.
Qed.

(** X16.  [calculate_atr] gives one value per row.  With a period of at
    least 1 the first [period - 1] values are NaN and every later one is
    a number, which is not negative when no row has its low above its
    high. *)
Theorem calculate_atr_warm_up :
  forall df period i,
    (1 <= period)%nat ->
    (i < List.length df)%nat ->
    List.length (Indicators.calculate_atr df period) = List.length df /\
    ((S i < period)%nat -> nth_error (Indicators.calculate_atr df period) i = Some None) /\
    ((period <= S i)%nat ->
     exists a,
       nth_error (Indicators.calculate_atr df period) i = Some (Some a) /\
       (Forall (fun c => Indicators.low c <= Indicators.high c) df -> 0 <= a)).
Proof.
  intros df period i Hp Hi. split; [apply calculate_atr_length|].
  rewrite (calculate_atr_nth df period i Hi). split.
  - intro H. now rewrite rolling_mean_warm_up.
  - intro H.
    destruct (rolling_mean_full period (Indicators.true_ranges None df) i Hp H)
      as (a & -> & Ha).
    exists a. split; [reflexivity|]. intro Hdf. apply Ha. now apply true_ranges_nonneg.
Qed.

Lemma calculate_atr_warm_up_witness :
  nth_error (Indicators.calculate_atr full_frame ATR_PERIOD) 12 = Some None /\
  exists a,
    nth_error (Indicators.calculate_atr full_frame ATR_PERIOD) 13 = Some (Some a) /\
    0 <= a /\ a == 2.
Proof.
  assert (Hp : (1 <= ATR_PERIOD)%nat) by (unfold ATR_PERIOD; lia).
  assert (H12 : (12 < List.length full_frame)%nat) by (vm_compute; lia).
  assert (H13 : (13 < List.length full_frame)%nat) by (vm_compute; lia).
  destruct (calculate_atr_warm_up full_frame ATR_PERIOD 12 Hp H12) as (_ & Hnan & _).
  destruct (calculate_atr_warm_up full_frame ATR_PERIOD 13 Hp H13) as (_ & _ & Hnum).
  split; [apply Hnan; unfold ATR_PERIOD; lia|].
  destruct Hnum as (a & Ha & Hpos); [unfold ATR_PERIOD; lia|].
  exists a. split; [exact Ha|]. split.
  - apply Hpos. unfold full_frame. apply Forall_forall. intros c Hc.
    apply repeat_spec in Hc. subst c. discriminate.
  - assert (Hv : nth_error (Indicators.calculate_atr full_frame ATR_PERIOD) 13
                 = Some (Some (28 / 14))) by (vm_compute; reflexivity).
    rewrite Hv in Ha. apply Some_eq in Ha. apply Some_eq in Ha. subst a. reflexivity.
Defined.

(** ** Stop loss and take profit of the risk manager *)

Lemma iloc_last_app {A : Type} (l : list A) (x : A) :
  Indicators.iloc_last (l ++ [x]) = Ok x.
Proof.
  unfold Indicators.iloc_last. now rewrite rev_app_distr.
Qed.

Lemma calculate_atr_last df period :
  df <> [] ->
  Indicators.iloc_last (Indicators.calculate_atr df period)
  = Ok (Indicators.rolling_mean period (Indicators.true_ranges None df)
          (List.length df - 1)).
Proof.
  intro Hne. unfold Indicators.calculate_atr.
  destruct (List.length df) as [|n] eqn:E.
  - destruct df; [contradiction|discriminate].
  - rewrite seq_S, map_app. cbn [map]. rewrite iloc_last_app.
    now replace (S n - 1)%nat with (0 + n)%nat by lia.
Qed.

(** X17.  In the configured mode (['atr']), [calculate_stop_loss] and
    [calculate_take_profit] use the percentage fallback only when no frame
    is passed.  With an empty frame they raise [IndexError]; with a frame
    shorter than [ATR_PERIOD] they return NaN, not the fallback; with a
    frame of [ATR_PERIOD] rows or more they return the entry price moved by
    2 and by 4 times the last ATR, the stop below and the target above for
    ['buy'], the other way round for any other direction. *)
Theorem stop_and_target_from_frame :
  forall self entry dir,
    let buy := String.eqb dir "buy" in
    (RiskManager.calculate_stop_loss self entry dir None
     = Ok (Some (if buy then entry * (1 - RiskManager.stop_loss_pct self)
                 else entry * (1 + RiskManager.stop_loss_pct self))) /\
     RiskManager.calculate_take_profit self entry dir None
     = Ok (Some (if buy then entry * (1 + RiskManager.take_profit_pct self)
                 else entry * (1 - RiskManager.take_profit_pct self)))) /\
    (RiskManager.calculate_stop_loss self entry dir (Some []) = Raise IndexError /\
     RiskManager.calculate_take_profit self entry dir (Some []) = Raise IndexError) /\
    (forall frame,
       frame <> [] -> (List.length frame < ATR_PERIOD)%nat ->
       RiskManager.calculate_stop_loss self entry dir (Some frame) = Ok None /\
       RiskManager.calculate_take_profit self entry dir (Some frame) = Ok None) /\
    (forall frame,
       (ATR_PERIOD <= List.length frame)%nat ->
       exists a,
         Indicators.iloc_last (Indicators.calculate_atr frame ATR_PERIOD) = Ok (Some a) /\
         RiskManager.calculate_stop_loss self entry dir (Some frame)
         = Ok (Some (if buy then entry - 2 * a else entry + 2 * a)) /\
         RiskManager.calculate_take_profit self entry dir (Some frame)
         = Ok (Some (if buy then entry + 4 * a else entry - 4 * a)) /\
         (Forall (fun c => Indicators.low c <= Indicators.high c) frame -> 0 <= a)).
Proof.
  intros self entry dir buy. split; [split; reflexivity|]. split; [split; reflexivity|].
  split.
  - intros frame Hne Hlen.
    unfold RiskManager.calculate_stop_loss, RiskManager.calculate_take_profit.
    cbn [SLTP_MODE String.eqb Ascii.eqb Bool.eqb].
    rewrite (calculate_atr_last frame ATR_PERIOD Hne).
    rewrite rolling_mean_warm_up; [split; reflexivity|].
    destruct frame; [contradiction|]. simpl in *. lia.
  - intros frame Hlen.
    assert (Hne : frame <> []).
    { intros ->. unfold ATR_PERIOD in Hlen. simpl in Hlen. lia. }
    destruct (rolling_mean_full ATR_PERIOD (Indicators.true_ranges None frame)
                (List.length frame - 1)) as (a & Ha & Hpos).
    { unfold ATR_PERIOD. lia. }
    { lia. }
    exists a.
    unfold RiskManager.calculate_stop_loss, RiskManager.calculate_take_profit.
    cbn [SLTP_MODE String.eqb Ascii.eqb Bool.eqb].
    rewrite (calculate_atr_last frame ATR_PERIOD Hne), Ha.
    repeat split. intro Hdf. apply Hpos. now apply true_ranges_nonneg.
Qed.

Lemma stop_and_target_from_frame_witness :
  RiskManager.calculate_stop_loss RiskManager.default 2000 "buy" (Some short_frame)
  = Ok None /\
  exists a,
    Indicators.iloc_last (Indicators.calculate_atr full_frame ATR_PERIOD) = Ok (Some a) /\
    RiskManager.calculate_stop_loss RiskManager.default 2000 "buy" (Some full_frame)
    = Ok (Some (2000 - 2 * a)) /\
    RiskManager.calculate_take_profit RiskManager.default 2000 "buy" (Some full_frame)
    = Ok (Some (2000 + 4 * a)) /\
    0 <= a.
Proof.
  destruct (stop_and_target_from_frame RiskManager.default 2000 "buy")
    as (_ & _ & Hshort & Hfull).
  split.
  - apply Hshort; [discriminate|vm_compute; lia].
  - destruct (Hfull full_frame) as (a & Ha & Hs & Ht & Hpos); [vm_compute; lia|].
    exists a. split; [exact Ha|]. split; [exact Hs|]. split; [exact Ht|].
    apply Hpos. unfold full_frame. apply Forall_forall. intros c Hc.
    apply repeat_spec in Hc. subst c. discriminate.
Defined.

(** * Properties of the optimizer *)

(** A run on a fresh backtester that returns has evaluated an empty trade
    list. *)
Lemma run_fresh_returns_no_trades (Params : Type)
    (generate_signals : backtester -> Params -> result (list row))
    (atr_series : Z -> option Q) (sharpe_of : list Q -> Q)
    (report : sim_state -> performance -> result unit)
    (self : backtester) (strategy_params : Params) (perf : performance) :
  run Params generate_signals atr_series sharpe_of report self [] [] strategy_params
  = Ok perf ->
  perf_get "num_trades" perf = Some (PNum 0).
Proof.
  unfold run. intro H.
  apply bind_Ok in H as (signals & _ & H). apply bind_Ok in H as (st & Hst & H).
  apply bind_Ok in H as (perf' & Hperf & H). apply bind_Ok in H as (written & _ & H).
  injection H as <-.
  apply run_logs_entry in Hst as [[_ Ht] | (e & He)].
  - rewrite Ht in Hperf. injection Hperf as <-. reflexivity.
  - exfalso. unfold _calculate_performance in Hperf.
    destruct (trades st) as [|t ts]; [contradiction|].
    rewrite (select_by_pnl_entry _ _ _ He) in Hperf. discriminate.
Qed.

Lemma try_combination_skips generate_signals atr_series sharpe_of report metric
    min_trades acc params :
  (0 < min_trades)%Z ->
  Optimizer.try_combination generate_signals atr_series sharpe_of report metric
    min_trades acc params = acc.
Proof.
  intro Hmin. unfold Optimizer.try_combination.
  destruct (negb (Optimizer._is_valid_combination params)); [reflexivity|].
  destruct (run _ _ _ _ _ _ _ _ _) as [perf|e] eqn:Hrun; [|reflexivity].
  rewrite (run_fresh_returns_no_trades _ _ _ _ _ _ _ _ Hrun).
  assert (E : Qltb 0 (inject_Z min_trades) = true).
  { apply Qltb_lt. change 0 with (inject_Z 0). rewrite <- Zlt_Qlt. exact Hmin. }
  now rewrite E.
Qed.

(** X18.  [Optimizer.grid_search] with [min_trades] of 1 or more (the
    default is 10) records nothing, whatever the strategy, the data and the
    grid: it returns no best parameters, no best performance, and
    [self.results] as it found it.  A run that opens a position raises in
    the evaluation, which the [try] of the loop swallows, and a run that
    opens none reports 0 trades, fewer than [min_trades]. *)
Theorem grid_search_records_nothing :
  forall generate_signals atr_series sharpe_of report metric self_results param_grid
         min_trades,
    (0 < min_trades)%Z ->
    Optimizer.grid_search generate_signals atr_series sharpe_of report metric
      self_results param_grid min_trades
    = (None, None, self_results).
Proof.
  intros generate_signals atr_series sharpe_of report metric self_results param_grid
    min_trades Hmin.
  unfold Optimizer.grid_search.
  assert (Hfold : forall combos acc,
            fold_left (Optimizer.try_combination generate_signals atr_series sharpe_of
                         report metric min_trades) combos acc = acc).
  { induction combos as [|params rest IH]; intro acc; [reflexivity|].
    simpl. rewrite try_combination_skips by exact Hmin. apply IH. }
  rewrite Hfold. reflexivity.
Qed.

Lemma grid_search_records_nothing_witness :
  Optimizer.grid_search (fun _ _ => Ok scenario_A) (atr_const 5) (fun _ => 0)
    (fun _ _ => Ok tt) "sharpe_ratio" []
    [("short_window", [5; 10]%Z); ("long_window", [20; 30]%Z)] 10
  = (None, None, []).
Proof.
  apply grid_search_records_nothing. reflexivity.
Defined.

(** * Loss streaks and the drawdown flag *)

Lemma record_all_app self before after :
  RiskManager.record_all self (before ++ after)
  = RiskManager.record_all (RiskManager.record_all self before) after.
Proof. unfold RiskManager.record_all. apply fold_left_app. Qed.

Lemma record_all_history outcomes :
  forall self,
    RiskManager.trade_history (RiskManager.record_all self outcomes)
    = RiskManager.trade_history self ++ map recorded outcomes.
Proof.
  induction outcomes as [|o rest IH]; intro self.
  - simpl. now rewrite app_nil_r.
  - change (RiskManager.record_all self (o :: rest))
      with (RiskManager.record_all
              (RiskManager.record_trade_result self (RiskManager.o_symbol o)
                 (RiskManager.o_pnl o) (RiskManager.o_win_loss o) (RiskManager.o_now o))
              rest).
    rewrite IH. unfold RiskManager.record_trade_result.
    destruct (String.eqb (RiskManager.o_win_loss o) "loss"); cbn;
      rewrite <- app_assoc; reflexivity.
Qed.

(** X19.  [consecutive_losses] counts the results recorded as ['loss']
    since the last result recorded as anything else: after a result that
    is not ['loss'] followed by [n] losses it is [n], whatever it was
    before.  [trade_history] grows by one element per result, in the order
    recorded, each with the symbol, the PnL, the win/loss string and the
    time of its call. *)
Theorem consecutive_losses_counts_streak :
  forall self before o losses,
    RiskManager.is_loss o = false ->
    forallb RiskManager.is_loss losses = true ->
    let self' := RiskManager.record_all self (before ++ o :: losses) in
    RiskManager.consecutive_losses self' = Z.of_nat (List.length losses) /\
    RiskManager.trade_history self'
    = RiskManager.trade_history self
      ++ map (fun r => {| RiskManager.tr_symbol := RiskManager.o_symbol r;
                          RiskManager.tr_pnl := RiskManager.o_pnl r;
                          RiskManager.tr_win_loss := RiskManager.o_win_loss r;
                          RiskManager.tr_timestamp := RiskManager.o_now r |})
           (before ++ o :: losses).
Proof.
  intros self before o losses Ho Hl self'. split; [|apply record_all_history].
  subst self'. rewrite record_all_app.
  change (o :: losses) with ([o] ++ losses). rewrite record_all_app.
  destruct (record_all_losses losses
              (RiskManager.record_all (RiskManager.record_all self before) [o]) Hl)
    as [-> _].
  cbn [RiskManager.record_all fold_left].
  destruct (record_trade_result_losses (RiskManager.record_all self before)
              (RiskManager.o_symbol o) (RiskManager.o_pnl o) (RiskManager.o_win_loss o)
              (RiskManager.o_now o)) as (-> & _).
  unfold RiskManager.is_loss in Ho. rewrite Ho. lia.
Qed.

Lemma consecutive_losses_counts_streak_witness :
  RiskManager.consecutive_losses
    (RiskManager.record_all RiskManager.default
       (five_losses ++
        {| RiskManager.o_symbol := "XAUUSD"; RiskManager.o_pnl := 0;
           RiskManager.o_win_loss := "breakeven"; RiskManager.o_now := 0%Z |}
        :: firstn 2 five_losses))
  = 2%Z.
Proof.
  refine (proj1 (consecutive_losses_counts_streak RiskManager.default five_losses
                   {| RiskManager.o_symbol := "XAUUSD"; RiskManager.o_pnl := 0;
                      RiskManager.o_win_loss := "breakeven"; RiskManager.o_now := 0%Z |}
                   (firstn 2 five_losses) _ _)); reflexivity.
Defined.

Lemma sim_step_flag self atr_series st r st' :
  sim_step self atr_series st r = Ok st' -> drawdown_triggered st' = halted self st.
Proof.
  intro H. apply sim_step_Ok in H as (m & m' & _ & _ & ->). reflexivity.
Qed.

Lemma nth_error_earlier {A : Type} (l : list A) k x :
  nth_error l (S k) = Some x -> exists y, nth_error l k = Some y.
Proof.
  intro H. destruct (nth_error l k) as [y|] eqn:E; [eauto|].
  apply nth_error_None in E.
  assert (nth_error l (S k) = None) by (apply nth_error_None; lia). congruence.
Qed.

(** X20.  The drawdown flag is set by a breach only: in a run that starts
    with the flag clear, a state with the flag set comes after a bar that
    began with the drawdown from the running peak above [max_drawdown]. *)
Theorem flag_set_only_by_breach :
  forall self atr_series st signals states,
    states_from self atr_series st signals = Ok states ->
    drawdown_triggered st = false ->
    forall k s,
      nth_error states k = Some s ->
      drawdown_triggered s = true ->
      exists j s0,
        (j < k)%nat /\ nth_error states j = Some s0 /\
        max_drawdown self < current_drawdown (update_max_equity s0) (equity s0).
Proof.
  intros self atr_series st signals states Hrun Hclear k.
  induction k as [|k IH]; intros s Hs Hflag.
  - apply states_from_head in Hrun as (later & ->). simpl in Hs.
    apply Some_eq in Hs. subst s. congruence.
  - destruct (nth_error_earlier _ _ _ Hs) as (s0 & Hs0).
    destruct (states_from_step _ _ _ _ _ _ _ _ Hrun Hs0 Hs) as (r & Hstep).
    apply sim_step_flag in Hstep. rewrite Hflag in Hstep. symmetry in Hstep.
    apply halted_iff in Hstep as [Hprev|Hbreach].
    + destruct (IH s0 Hs0 Hprev) as (j & sj & Hj & Hsj & Hb).
      exists j, sj. split; [lia|]. split; assumption.
    + exists k, s0. split; [lia|]. split; assumption.
Qed.

Lemma flag_set_only_by_breach_witness :
  states_from default_backtester (atr_const 5) (initial_state [] []) falling_market
    = Ok falling_market_states /\
  drawdown_triggered after_stop = true /\
  exists j s0,
    (j < 3)%nat /\ nth_error falling_market_states j = Some s0 /\
    max_drawdown default_backtester
    < current_drawdown (update_max_equity s0) (equity s0).
Proof.
  assert (Hrun : states_from default_backtester (atr_const 5) (initial_state [] [])
                   falling_market = Ok falling_market_states) by (vm_compute; reflexivity).
  assert (Hflag : drawdown_triggered after_stop = true) by (vm_compute; reflexivity).
  split; [exact Hrun|]. split; [exact Hflag|].
  exact (flag_set_only_by_breach default_backtester (atr_const 5) (initial_state [] [])
           falling_market falling_market_states Hrun eq_refl 3%nat after_stop eq_refl Hflag).
Defined.
